(** * Magic Fingers: particle morphing and gesture normalisation

    A shallow embedding of [src/app.js]: the pattern catalogue [PATTERNS],
    the class [GestureDetector] and the class [ParticleSystem], followed by
    the properties stated about them.

    Number model.  A JavaScript number is an IEEE-754 double.  Here a
    finite number is a real ([R]) and arithmetic is exact: rounding,
    overflow and signed zeros are not represented (this includes the
    single-precision rounding of a [Float32Array] store).  Where the code
    can produce a value that is not a finite number, a number is a
    [num = option R] whose [None] stands for NaN or an infinity; the
    operations are strict in [None], so the model says of a value either
    which finite number it is or that it need not be finite. *)

From Stdlib Require Import Reals Lra Lia.
From stdpp Require Import base list strings option.

Set Warnings "-abstract-large-number".

(** ** Numbers *)

Module JSNum.

Definition num := option R.

Declare Scope num_scope.
Delimit Scope num_scope with num.

Notation "# x" := (@Some R x%R) (at level 9, x at level 9, format "# x") : num_scope.

Definition lift1 (f : R -> R) (a : num) : num :=
  match a with Some x => Some (f x) | None => None end.

Definition lift2 (f : R -> R -> R) (a b : num) : num :=
  match a, b with Some x, Some y => Some (f x y) | _, _ => None end.

Definition nadd : num -> num -> num := lift2 Rplus.
Definition nsub : num -> num -> num := lift2 Rminus.
Definition nmul : num -> num -> num := lift2 Rmult.
Definition nneg : num -> num := lift1 Ropp.

(** [x / 0] is an infinity or NaN. *)
Definition ndiv (a b : num) : num :=
  match a, b with
  | Some x, Some y => if Req_dec_T y 0 then None else Some (x / y)%R
  | _, _ => None
  end.

(** Rounding toward zero, the quotient of the remainder operator. *)
Definition Rtrunc (x : R) : Z :=
  if Rle_dec 0 x then Int_part x else (- Int_part (- x))%Z.

(** The remainder operator [%]: the result has the sign of the dividend;
    [x % 0] is NaN. *)
Definition nmod (a b : num) : num :=
  match a, b with
  | Some x, Some y =>
      if Req_dec_T y 0 then None else Some (x - y * IZR (Rtrunc (x / y)))%R
  | _, _ => None
  end.

(** Comparison and strict equality; both are false on NaN, and are taken
    to be false on every non-finite operand. *)
Definition nlt (a b : num) : bool :=
  match a, b with
  | Some x, Some y => if Rlt_dec x y then true else false
  | _, _ => false
  end.

Definition nseq (a b : num) : bool :=
  match a, b with
  | Some x, Some y => if Req_dec_T x y then true else false
  | _, _ => false
  end.

Notation "a + b" := (nadd a b) : num_scope.
Notation "a - b" := (nsub a b) : num_scope.
Notation "a * b" := (nmul a b) : num_scope.
Notation "a / b" := (ndiv a b) : num_scope.
Notation "a 'mod' b" := (nmod a b) : num_scope.
Notation "- a" := (nneg a) : num_scope.

(** The cube root of a real. *)
Definition cbrt (x : R) : R :=
  if Rlt_dec 0 x then Rpower x (/ 3)
  else if Rlt_dec x 0 then (- Rpower (- x) (/ 3))%R
  else 0%R.

Definition Math_PI : num := Some PI.
Definition Math_sin : num -> num := lift1 sin.
Definition Math_cos : num -> num := lift1 cos.
Definition Math_exp : num -> num := lift1 exp.
Definition Math_abs : num -> num := lift1 Rabs.
Definition Math_cbrt : num -> num := lift1 cbrt.
Definition Math_floor : num -> num := lift1 (fun x => IZR (Int_part x)).

(** [Math.pow] at a literal non-negative integer exponent. *)
Definition Math_pow (a : num) (n : nat) : num := lift1 (fun x => (x ^ n)%R) a.

(** [Math.sqrt] of a negative number is NaN. *)
Definition Math_sqrt (a : num) : num :=
  match a with
  | Some x => if Rlt_dec x 0 then None else Some (sqrt x)
  | None => None
  end.

(** [Math.acos] outside [-1, 1] is NaN. *)
Definition Math_acos (a : num) : num :=
  match a with
  | Some x =>
      if Rle_dec (-1) x then if Rle_dec x 1 then Some (acos x) else None
      else None
  | None => None
  end.

(** Reading [arr[k]] where [k] is a number: defined only when [k] is a
    non-negative integer below the length. *)
Definition array_get {A} (arr : list A) (k : num) : option A :=
  match k with
  | Some r =>
      if Rle_dec 0 r then
        if Req_dec_T (IZR (Int_part r)) r then arr !! Z.to_nat (Int_part r)
        else None
      else None
  | None => None
  end.

(** [a || b] on a possibly undefined object reference. *)
Definition or_else {A} (a : option A) (b : A) : A :=
  match a with Some x => x | None => b end.

(** *** The stream behind [Math.random]

    Successive calls return successive elements of a stream of reals
    (each in the interval [0, 1) in an implementation). *)

Definition Rng := nat -> R.

Definition Rand (A : Type) := Rng -> A * Rng.

Definition ret {A} (a : A) : Rand A := fun s => (a, s).

Definition bind {A B} (m : Rand A) (k : A -> Rand B) : Rand B :=
  fun s => let '(a, s') := m s in k a s'.

Definition Math_random : Rand num :=
  fun s => (Some (s 0%nat), fun n => s (S n)).

Notation "'let!' x ':=' m 'in' k" := (bind m (fun x => k))
  (at level 10, x name, m at level 100, k at level 200).

End JSNum.

Import JSNum.

(** ** The pattern catalogue ([PATTERNS]) *)

Module Patterns.

Local Open Scope num_scope.

Record Vector3 := Vec3 { vx : num; vy : num; vz : num }.

(** A generator maps a particle index and the particle count to a point,
    possibly drawing from [Math.random]. *)
Definition generator := nat -> nat -> Rand Vector3.

(** The index and the count as numbers. *)
Notation "$ n" := (@Some R (INR n)) (at level 9, n at level 9, format "$ n") : num_scope.

Definition sphere : generator := fun i total =>
  let phi := Math_acos (#(-1) + (#2 * $i) / $total) in
  let theta := Math_sqrt ($total * Math_PI) * phi in
  let r := #5 in
  ret (Vec3 (r * Math_cos theta * Math_sin phi)
            (r * Math_sin theta * Math_sin phi)
            (r * Math_cos phi)).

Definition cube : generator := fun i total =>
  let size := #8 in
  let perSide := Math_cbrt $total in
  let x := (($i mod perSide) / perSide - #0.5) * size in
  let y := ((Math_floor ($i / perSide) mod perSide) / perSide - #0.5) * size in
  let z := ((Math_floor ($i / (perSide * perSide))) / perSide - #0.5) * size in
  ret (Vec3 x y z).

Definition torus : generator := fun i total =>
  let R := #4 in
  let r := #1.5 in
  let u := ($i / $total) * Math_PI * #2 * #8 in
  let v := ((($i * #13) mod $total) / $total) * Math_PI * #2 in
  ret (Vec3 ((R + r * Math_cos v) * Math_cos u)
            ((R + r * Math_cos v) * Math_sin u)
            (r * Math_sin v)).

Definition spiral : generator := fun i total =>
  let t := ($i / $total) * #20 in
  let r := t * #0.3 in
  ret (Vec3 (r * Math_cos (t * #2))
            (($i / $total - #0.5) * #10)
            (r * Math_sin (t * #2))).

Definition heart : generator := fun i total =>
  let t := ($i / $total) * Math_PI * #2 in
  let s := (($i * #7) mod $total) / $total in
  let scale := #0.4 + s * #0.6 in
  let x := #16 * Math_pow (Math_sin t) 3 * scale * #0.3 in
  let y := (#13 * Math_cos t - #5 * Math_cos (#2 * t) - #2 * Math_cos (#3 * t)
            - Math_cos (#4 * t)) * scale * #0.3 in
  let! u := Math_random in
  let z := (u - #0.5) * #2 * scale in
  ret (Vec3 x y z).

Definition galaxy : generator := fun i total =>
  let arms := #3 in
  let arm := $i mod arms in
  let posInArm := Math_floor ($i / arms) / ($total / arms) in
  let angle := arm * (Math_PI * #2 / arms) + posInArm * #4 in
  let r := posInArm * #7 in
  let spread := posInArm * #1.5 in
  let! u1 := Math_random in
  let! u2 := Math_random in
  let! u3 := Math_random in
  ret (Vec3 (r * Math_cos angle + (u1 - #0.5) * spread)
            ((u2 - #0.5) * spread * #0.3)
            (r * Math_sin angle + (u3 - #0.5) * spread)).

Definition dna : generator := fun i total =>
  let t := ($i / $total) * Math_PI * #8 in
  let strand := $i mod #2 in
  let r := #2 in
  let offset := strand * Math_PI in
  ret (Vec3 (r * Math_cos (t + offset))
            (($i / $total - #0.5) * #15)
            (r * Math_sin (t + offset))).

Definition tornado : generator := fun i total =>
  let height := ($i / $total) * #12 - #6 in
  let radius := (#1 - Math_abs height / #6) * #4 + #0.5 in
  let angle := ($i / $total) * Math_PI * #20 + height in
  ret (Vec3 (radius * Math_cos angle) height (radius * Math_sin angle)).

Definition pyramid : generator := fun i total =>
  let level := Math_floor (Math_sqrt ($i / $total) * #10) in
  let size := #8 - level * #0.8 in
  let y := level * #0.8 - #4 in
  let angle := ($i * #2.39996) mod (Math_PI * #2) in
  let! u := Math_random in
  let r := u * size in
  ret (Vec3 (r * Math_cos angle) y (r * Math_sin angle)).

Definition cylinder : generator := fun i total =>
  let angle := ($i / $total) * Math_PI * #40 in
  let height := ((($i * #17) mod $total) / $total - #0.5) * #10 in
  let r := #3 in
  ret (Vec3 (r * Math_cos angle) height (r * Math_sin angle)).

Definition cone : generator := fun i total =>
  let t := $i / $total in
  let height := t * #10 - #5 in
  let radius := (#1 - t) * #4 in
  let angle := $i * #2.39996 in
  ret (Vec3 (radius * Math_cos angle) height (radius * Math_sin angle)).

Definition trefoilKnot : generator := fun i total =>
  let t := ($i / $total) * Math_PI * #2 in
  let scale := #2 in
  ret (Vec3 (scale * (Math_sin t + #2 * Math_sin (#2 * t)))
            (scale * (Math_cos t - #2 * Math_cos (#2 * t)))
            (scale * (- Math_sin (#3 * t)))).

Definition torusKnot : generator := fun i total =>
  let p := #2 in
  let q := #3 in
  let t := ($i / $total) * Math_PI * #2 * #3 in
  let r := #0.5 * (#2 + Math_cos (q * t)) in
  ret (Vec3 (r * Math_cos (p * t) * #2.5)
            (r * Math_sin (p * t) * #2.5)
            ((- Math_sin (q * t)) * #2)).

Definition star : generator := fun i total =>
  let points := #5 in
  let angle := ($i / $total) * Math_PI * #2 * points in
  let r := #3 + #2 * Math_sin (angle * #2.5) in
  let layer := Math_floor (($i * #7) mod #5) / #5 in
  ret (Vec3 (r * Math_cos angle) ((layer - #0.5) * #4) (r * Math_sin angle)).

Definition explosion : generator := fun i total =>
  let phi := Math_acos (#(-1) + (#2 * $i) / $total) in
  let theta := Math_sqrt ($total * Math_PI) * phi in
  let! u := Math_random in
  let r := #2 + u * #5 in
  ret (Vec3 (r * Math_cos theta * Math_sin phi)
            (r * Math_sin theta * Math_sin phi)
            (r * Math_cos phi)).

Definition wave : generator := fun i total =>
  let gridSize := Math_sqrt $total in
  let x := ($i mod gridSize) / gridSize * #16 - #8 in
  let z := Math_floor ($i / gridSize) / gridSize * #16 - #8 in
  let y := Math_sin (x * #0.5) * Math_cos (z * #0.5) * #3 in
  ret (Vec3 x y z).

Definition ripple : generator := fun i total =>
  let gridSize := Math_sqrt $total in
  let x := ($i mod gridSize) / gridSize * #16 - #8 in
  let z := Math_floor ($i / gridSize) / gridSize * #16 - #8 in
  let dist := Math_sqrt (x * x + z * z) in
  let y := Math_sin (dist * #1.5) * #2 * Math_exp ((- dist) * #0.1) in
  ret (Vec3 x y z).

Definition butterfly : generator := fun i total =>
  let t := ($i / $total) * Math_PI * #12 in
  let r := Math_exp (Math_cos t) - #2 * Math_cos (#4 * t)
           + Math_pow (Math_sin (t / #12)) 5 in
  let! u := Math_random in
  ret (Vec3 (Math_sin t * r * #1.5) (Math_cos t * r * #1.5) ((u - #0.5) * #2)).

Definition rose : generator := fun i total =>
  let k := #5 in
  let theta := ($i / $total) * Math_PI * #6 in
  let r := #5 * Math_cos (k * theta) in
  let layer := (($i * #3) mod $total) / $total in
  ret (Vec3 (r * Math_cos theta) ((layer - #0.5) * #3) (r * Math_sin theta)).

Definition atom : generator := fun i total =>
  let orbits := #3 in
  let orbit := $i mod orbits in
  let angle := ($i / $total) * Math_PI * #2 * #10 in
  let r := #4 in
  let tilt := orbit * (Math_PI / #3) in
  if nlt $i ($total * #0.1) then
    let! u1 := Math_random in
    let! u2 := Math_random in
    let! u3 := Math_random in
    ret (Vec3 ((u1 - #0.5) * #1.5) ((u2 - #0.5) * #1.5) ((u3 - #0.5) * #1.5))
  else
    ret (Vec3 (r * Math_cos angle)
              (r * Math_sin angle * Math_cos tilt)
              (r * Math_sin angle * Math_sin tilt)).

Definition vortex : generator := fun i total =>
  let t := $i / $total in
  let angle := t * Math_PI * #10 in
  let r := t * #6 in
  let height := Math_sin (t * Math_PI) * #8 - #4 in
  ret (Vec3 (r * Math_cos angle) height (r * Math_sin angle)).

Definition shell : generator := fun i total =>
  let t := ($i / $total) * Math_PI * #6 in
  let a := #0.2 in
  let b := #0.1 in
  let r := a * Math_exp (b * t) in
  ret (Vec3 (r * Math_cos t) (r * Math_sin t) (t * #0.3 - #3)).

Definition infinity : generator := fun i total =>
  let t := ($i / $total) * Math_PI * #2 in
  let scale := #4 in
  let layer := ((($i * #5) mod $total) / $total - #0.5) * #2 in
  ret (Vec3 (scale * Math_cos t / (#1 + Math_sin t * Math_sin t))
            layer
            (scale * Math_sin t * Math_cos t / (#1 + Math_sin t * Math_sin t))).

Definition brain : generator := fun i total =>
  let u := ($i / $total) * Math_PI * #2 in
  let v := ((($i * #7) mod $total) / $total) * Math_PI in
  let r := #4 + Math_sin (u * #8) * #0.5 + Math_sin (v * #6) * #0.3 in
  ret (Vec3 (r * Math_sin v * Math_cos u)
            (r * Math_cos v)
            (r * Math_sin v * Math_sin u)).

Definition diamond : generator := fun i total =>
  let t := $i / $total in
  let '(y, radius) :=
    if nlt t #0.5 then (t * #10 - #2.5, t * #2 * #4)
    else ((#1 - t) * #10 - #2.5 + #5, (#1 - t) * #2 * #4) in
  let angle := $i * #2.39996 in
  ret (Vec3 (radius * Math_cos angle) y (radius * Math_sin angle)).

Record Center := { cx : num; cy : num; cz : num }.

Definition centers : list Center :=
  [ {| cx := #0;      cy := #0;      cz := #0 |};
    {| cx := #3;      cy := #1;      cz := #0 |};
    {| cx := #(-3);   cy := #0.5;    cz := #1 |};
    {| cx := #1.5;    cy := #(-0.5); cz := #(-2) |};
    {| cx := #(-1.5); cy := #1.5;    cz := #2 |} ].

Definition cloud : generator := fun i total =>
  let cluster := Math_floor ($i / ($total / #5)) in
  let c := or_else (array_get centers cluster)
                   {| cx := #0; cy := #0; cz := #0 |} in
  let spread := #2.5 in
  let! u1 := Math_random in
  let! u2 := Math_random in
  let! u3 := Math_random in
  ret (Vec3 (cx c + (u1 - #0.5) * spread)
            (cy c + (u2 - #0.5) * spread * #0.5)
            (cz c + (u3 - #0.5) * spread)).

Definition lightning : generator := fun i total =>
  let branch := Math_floor ($i / ($total / #5)) in
  let t := ($i mod ($total / #5)) / ($total / #5) in
  let baseAngle := branch * (Math_PI * #2 / #5) in
  let! u := Math_random in
  let jitter := (u - #0.5) * t * #3 in
  ret (Vec3 (Math_sin baseAngle * t * #6 + jitter)
            (#5 - t * #10)
            (Math_cos baseAngle * t * #6 + jitter)).

Definition snowflake : generator := fun i total =>
  let arms := #6 in
  let arm := $i mod arms in
  let posInArm := Math_floor ($i / arms) / ($total / arms) in
  let angle := arm * (Math_PI * #2 / arms) in
  let branchAngle :=
    angle + (if nseq (Math_floor (posInArm * #3) mod #2) #0 then #0.3 else #(-0.3))
            * posInArm in
  let r := posInArm * #5 in
  let! u := Math_random in
  ret (Vec3 (r * Math_cos branchAngle) ((u - #0.5) * #0.5) (r * Math_sin branchAngle)).

Definition orbit : generator := fun i total =>
  let satellites := #4 in
  let sat := $i mod satellites in
  let mainOrbit := ($i / $total) * Math_PI * #2 in
  if nlt $i ($total * #0.15) then
    let! u1 := Math_random in
    let r := u1 * #1.5 in
    let! u2 := Math_random in
    let theta := u2 * Math_PI * #2 in
    let! u3 := Math_random in
    let phi := u3 * Math_PI in
    ret (Vec3 (r * Math_sin phi * Math_cos theta)
              (r * Math_sin phi * Math_sin theta)
              (r * Math_cos phi))
  else
    let orbitRadius := #3 + sat * #1.5 in
    let tilt := sat * #0.3 in
    ret (Vec3 (orbitRadius * Math_cos (mainOrbit + sat))
              (orbitRadius * Math_sin (mainOrbit + sat) * Math_sin tilt)
              (orbitRadius * Math_sin (mainOrbit + sat) * Math_cos tilt)).

(** The own properties of the object [PATTERNS], in insertion order. *)
Definition PATTERNS : list (string * generator) :=
  [ ("sphere", sphere); ("cube", cube); ("torus", torus); ("spiral", spiral);
    ("heart", heart); ("galaxy", galaxy); ("dna", dna); ("tornado", tornado);
    ("pyramid", pyramid); ("cylinder", cylinder); ("cone", cone);
    ("trefoilKnot", trefoilKnot); ("torusKnot", torusKnot); ("star", star);
    ("explosion", explosion); ("wave", wave); ("ripple", ripple);
    ("butterfly", butterfly); ("rose", rose); ("atom", atom);
    ("vortex", vortex); ("shell", shell); ("infinity", infinity);
    ("brain", brain); ("diamond", diamond); ("cloud", cloud);
    ("lightning", lightning); ("snowflake", snowflake); ("orbit", orbit) ]%string.

(** [Object.keys(PATTERNS)]. *)
Definition PATTERN_LIST : list string := map fst PATTERNS.

(** A name is registered when it is an own key of [PATTERNS]. *)
Definition registered (p : string) (g : generator) : Prop := In (p, g) PATTERNS.

Definition finite (a : num) : Prop := is_Some a.

Definition finite_point (v : Vector3) : Prop :=
  finite (vx v) /\ finite (vy v) /\ finite (vz v).

End Patterns.

(** ** Configuration ([CONFIG]) *)

Record Config := {
  particleCount : nat;
  particleSize : R;
  morphSpeed : R;
  rotationSpeed : R;
  gestureSmoothing : R;
  dispersionMultiplier : R
}.

Definition CONFIG : Config := {|
  particleCount := 30000;
  particleSize := 1.2;
  morphSpeed := 1.5;
  rotationSpeed := 0.002;
  gestureSmoothing := 0.1;
  dispersionMultiplier := 4.0
|}.

(** ** Gesture detection (class [GestureDetector])

    Landmark coordinates are finite numbers, so this class is modelled on
    [R] directly.  Reading a property of a missing landmark raises a
    [TypeError]; a method that can do so returns an [option], with [None]
    for the exception.  The field [gestureHistory] is never read or
    written after the constructor and is left out. *)

Module Gesture.

Local Open Scope R_scope.

Record Landmark := { x : R; y : R; z : R }.

(** One detected hand: the array of its landmarks. *)
Definition Hand := list Landmark.

(** The detector's result object; [multiHandLandmarks] may be undefined. *)
Record Results := { multiHandLandmarks : option (list Hand) }.

Inductive Swipe := SwipeLeft | SwipeRight.

Record Point2 := { px : R; py : R }.

Record GestureDetector := {
  handOpenness : R;
  targetOpenness : R;
  handRotation : R;
  targetRotation : R;
  handPosition : Point2;
  targetPosition : Point2;
  pinchStrength : R;
  targetPinch : R;
  handPresent : bool;
  swipeDirection : option Swipe;
  lastWristX : R;
  twoHandsPresent : bool;
  handsDistance : R;
  targetHandsDistance : R
}.

(** The constructor. *)
Definition new_GestureDetector : GestureDetector := {|
  handOpenness := 0.5;
  targetOpenness := 0.5;
  handRotation := 0;
  targetRotation := 0;
  handPosition := {| px := 0.5; py := 0.5 |};
  targetPosition := {| px := 0.5; py := 0.5 |};
  pinchStrength := 0;
  targetPinch := 0;
  handPresent := false;
  swipeDirection := None;
  lastWristX := 0.5;
  twoHandsPresent := false;
  handsDistance := 0;
  targetHandsDistance := 0
|}.

(** [Math.atan2(y, x)]. *)
Definition atan2 (y x : R) : R :=
  if Rlt_dec 0 x then atan (y / x)
  else if Rlt_dec x 0 then
    if Rle_dec 0 y then atan (y / x) + PI else atan (y / x) - PI
  else if Rlt_dec 0 y then PI / 2
  else if Rlt_dec y 0 then - (PI / 2)
  else 0.

Definition dist3 (a b : Landmark) : R :=
  sqrt ((x a - x b) ^ 2 + (y a - y b) ^ 2 + (z a - z b) ^ 2).

Definition dist2 (a b : Landmark) : R :=
  sqrt ((x a - x b) ^ 2 + (y a - y b) ^ 2).

Definition fingerTips : list nat := [8; 12; 16; 20]%nat.
Definition fingerBases : list nat := [5; 9; 13; 17]%nat.

(** One iteration of the loop of [calculateOpenness]. *)
Definition finger_step (landmarks : Hand) (palm : Landmark)
    (totalExtension : R) (i : nat) : option R :=
  tipIx ← fingerTips !! i;
  baseIx ← fingerBases !! i;
  tip ← landmarks !! tipIx;
  base ← landmarks !! baseIx;
  let tipDist := dist3 tip palm in
  let baseDist := dist3 base palm in
  Some (totalExtension + tipDist / (baseDist + 0.001)).

Definition calculateOpenness (landmarks : Hand) : option R :=
  palm ← landmarks !! 0%nat;
  totalExtension ←
    foldl (fun acc i => acc ≫= fun t => finger_step landmarks palm t i)
          (Some 0) (seq 0 (length fingerTips));
  thumb ← landmarks !! 4%nat;
  thumbBase ← landmarks !! 2%nat;
  let thumbExt := dist2 thumb thumbBase in
  let totalExtension := totalExtension + thumbExt * 5 in
  Some (Rmin 1 (Rmax 0 ((totalExtension - 2) / 4))).

Definition calculateRotation (landmarks : Hand) : option R :=
  wrist ← landmarks !! 0%nat;
  middleMCP ← landmarks !! 9%nat;
  Some (atan2 (x middleMCP - x wrist) (y middleMCP - y wrist)).

Definition calculatePinch (landmarks : Hand) : option R :=
  thumb ← landmarks !! 4%nat;
  index ← landmarks !! 8%nat;
  let distance := dist3 thumb index in
  Some (Rmax 0 (1 - distance * 5)).

Definition detectSwipe (currentX : R) (d : GestureDetector) : GestureDetector :=
  let threshold := 0.15 in
  let diff := currentX - lastWristX d in
  let '(swipe, last) :=
    if Rlt_dec threshold (Rabs diff)
    then (Some (if Rlt_dec 0 diff then SwipeRight else SwipeLeft), currentX)
    else (None, lastWristX d) in
  {| handOpenness := handOpenness d;
     targetOpenness := targetOpenness d;
     handRotation := handRotation d;
     targetRotation := targetRotation d;
     handPosition := handPosition d;
     targetPosition := targetPosition d;
     pinchStrength := pinchStrength d;
     targetPinch := targetPinch d;
     handPresent := handPresent d;
     swipeDirection := swipe;
     lastWristX := last;
     twoHandsPresent := twoHandsPresent d;
     handsDistance := handsDistance d;
     targetHandsDistance := targetHandsDistance d |}.

(** The branch of [processResults] taken when at least one hand is
    reported: [hands] is the whole array, [landmarks] its first element. *)
Definition track (hands : list Hand) (landmarks : Hand) (d : GestureDetector)
    : option GestureDetector :=
  let two := bool_decide (2 <= length hands)%nat in
  openness ← calculateOpenness landmarks;
  rotation ← calculateRotation landmarks;
  wrist ← landmarks !! 0%nat;
  pinch ← calculatePinch landmarks;
  let d1 := detectSwipe (x wrist)
    {| handOpenness := handOpenness d;
       targetOpenness := openness;
       handRotation := handRotation d;
       targetRotation := rotation;
       handPosition := handPosition d;
       targetPosition := {| px := x wrist; py := y wrist |};
       pinchStrength := pinchStrength d;
       targetPinch := pinch;
       handPresent := true;
       swipeDirection := swipeDirection d;
       lastWristX := lastWristX d;
       twoHandsPresent := two;
       handsDistance := handsDistance d;
       targetHandsDistance := targetHandsDistance d |} in
  if two then
    hand1 ← (hands !! 0%nat) ≫= (fun h => h !! 0%nat);
    hand2 ← (hands !! 1%nat) ≫= (fun h => h !! 0%nat);
    Some {| handOpenness := handOpenness d1;
            targetOpenness := targetOpenness d1;
            handRotation := handRotation d1;
            targetRotation := targetRotation d1;
            handPosition := handPosition d1;
            targetPosition := targetPosition d1;
            pinchStrength := pinchStrength d1;
            targetPinch := targetPinch d1;
            handPresent := handPresent d1;
            swipeDirection := swipeDirection d1;
            lastWristX := lastWristX d1;
            twoHandsPresent := twoHandsPresent d1;
            handsDistance := handsDistance d1;
            targetHandsDistance := dist2 hand1 hand2 |}
  else Some d1.

(** The branch taken when no hand is reported. *)
Definition idle (d : GestureDetector) : GestureDetector :=
  {| handOpenness := handOpenness d;
     targetOpenness := 0.5;
     handRotation := handRotation d;
     targetRotation := targetRotation d;
     handPosition := handPosition d;
     targetPosition := targetPosition d;
     pinchStrength := pinchStrength d;
     targetPinch := targetPinch d;
     handPresent := false;
     swipeDirection := None;
     lastWristX := lastWristX d;
     twoHandsPresent := twoHandsPresent d;
     handsDistance := handsDistance d;
     targetHandsDistance := targetHandsDistance d |}.

(** The smoothing step that ends [processResults]:
    [smoothed += (target - smoothed) * CONFIG.gestureSmoothing]. *)
Definition smooth (cfg : Config) (d : GestureDetector) : GestureDetector :=
  let f := gestureSmoothing cfg in
  {| handOpenness := handOpenness d + (targetOpenness d - handOpenness d) * f;
     targetOpenness := targetOpenness d;
     handRotation := handRotation d + (targetRotation d - handRotation d) * f;
     targetRotation := targetRotation d;
     handPosition :=
       {| px := px (handPosition d) + (px (targetPosition d) - px (handPosition d)) * f;
          py := py (handPosition d) + (py (targetPosition d) - py (handPosition d)) * f |};
     targetPosition := targetPosition d;
     pinchStrength := pinchStrength d + (targetPinch d - pinchStrength d) * f;
     targetPinch := targetPinch d;
     handPresent := handPresent d;
     swipeDirection := swipeDirection d;
     lastWristX := lastWristX d;
     twoHandsPresent := twoHandsPresent d;
     handsDistance := handsDistance d + (targetHandsDistance d - handsDistance d) * f;
     targetHandsDistance := targetHandsDistance d |}.

Definition processResults (cfg : Config) (results : Results) (d : GestureDetector)
    : option GestureDetector :=
  match multiHandLandmarks results with
  | Some (landmarks :: rest) =>
      d' ← track (landmarks :: rest) landmarks d; Some (smooth cfg d')
  | _ => Some (smooth cfg (idle d))
  end.

(** A sequence of detection callbacks, oldest first. *)
Fixpoint run (cfg : Config) (rs : list Results) (d : GestureDetector)
    : option GestureDetector :=
  match rs with
  | [] => Some d
  | r :: rs' => d' ← processResults cfg r d; run cfg rs' d'
  end.

(** What [getGestureState] returns. *)
Record GestureState := {
  openness : R;
  rotation : R;
  position : Point2;
  pinch : R;
  present : bool;
  swipe : option Swipe;
  twoHands : bool;
  gs_handsDistance : R
}.

Definition getGestureState (d : GestureDetector) : GestureState := {|
  openness := handOpenness d;
  rotation := handRotation d;
  position := handPosition d;
  pinch := pinchStrength d;
  present := handPresent d;
  swipe := swipeDirection d;
  twoHands := twoHandsPresent d;
  gs_handsDistance := handsDistance d
|}.

(** The detector's contract: every hand has its 21 landmarks. *)
Definition well_formed (results : Results) : Prop :=
  match multiHandLandmarks results with
  | Some hands => Forall (fun h : Hand => length h = 21%nat) hands
  | None => True
  end.

(** A callback that reports no hand. *)
Definition no_hands (results : Results) : Prop :=
  multiHandLandmarks results = None \/ multiHandLandmarks results = Some [].

(** The wrist of the first reported hand. *)
Definition first_wrist (results : Results) : option Landmark :=
  hands ← multiHandLandmarks results;
  landmarks ← hands !! 0%nat;
  landmarks !! 0%nat.

Definition unit_interval (v : R) : Prop := 0 <= v <= 1.

(** A hand with all 21 landmarks at one point, and results made of it. *)
Definition still_hand (wx : R) : Hand :=
  replicate 21 {| x := wx; y := 0.5; z := 0 |}.

Definition one_hand (wx : R) : Results :=
  {| multiHandLandmarks := Some [still_hand wx] |}.

Definition two_hands (wx wx2 : R) : Results :=
  {| multiHandLandmarks := Some [still_hand wx; still_hand wx2] |}.

Definition no_hand : Results := {| multiHandLandmarks := None |}.

(** A hand whose index tip (landmark 8) is [gap] to the right of all its
    other landmarks. *)
Definition pinching_hand (gap : R) : Hand :=
  <[8%nat := {| x := 0.5 + gap; y := 0.5; z := 0 |}]> (still_hand 0.5).

(** Smoothed openness and pinch, and their targets, lie in [0, 1]. *)
Definition bounded (d : GestureDetector) : Prop :=
  unit_interval (handOpenness d) /\ unit_interval (pinchStrength d) /\
  unit_interval (targetOpenness d) /\ unit_interval (targetPinch d).

(** Two detector states agree on everything that is derived from a single
    hand, that is on every field but [twoHandsPresent],
    [targetHandsDistance] and [handsDistance]. *)
Definition same_single_hand (d1 d2 : GestureDetector) : Prop :=
  handOpenness d1 = handOpenness d2 /\
  targetOpenness d1 = targetOpenness d2 /\
  handRotation d1 = handRotation d2 /\
  targetRotation d1 = targetRotation d2 /\
  handPosition d1 = handPosition d2 /\
  targetPosition d1 = targetPosition d2 /\
  pinchStrength d1 = pinchStrength d2 /\
  targetPinch d1 = targetPinch d2 /\
  handPresent d1 = handPresent d2 /\
  swipeDirection d1 = swipeDirection d2 /\
  lastWristX d1 = lastWristX d2.

End Gesture.

(** ** The particle system (class [ParticleSystem]) *)

Module Particles.

Import Patterns.

(** *** Property lookup on [PATTERNS]

    [PATTERNS] is an object literal, so [PATTERNS[name]] first looks among
    its own properties and then along the prototype chain, that is in
    [Object.prototype]. *)

Fixpoint own_property (name : string) (obj : list (string * generator))
    : option generator :=
  match obj with
  | [] => None
  | (k, g) :: rest => if String.eqb name k then Some g else own_property name rest
  end.

(** What a member of [Object.prototype] does when it is called as
    [patternFn(i, count)], with no receiver: it either returns a value
    that has no [x], [y], [z] (reading them gives [undefined]), or raises
    a [TypeError]. *)
Inductive proto_call := ReturnsNoPoint | ThrowsTypeError.

Definition Object_prototype : list (string * proto_call) :=
  [ ("constructor", ReturnsNoPoint);
    ("toString", ReturnsNoPoint);
    ("isPrototypeOf", ReturnsNoPoint);
    ("toLocaleString", ThrowsTypeError);
    ("valueOf", ThrowsTypeError);
    ("hasOwnProperty", ThrowsTypeError);
    ("propertyIsEnumerable", ThrowsTypeError);
    ("__defineGetter__", ThrowsTypeError);
    ("__defineSetter__", ThrowsTypeError);
    ("__lookupGetter__", ThrowsTypeError);
    ("__lookupSetter__", ThrowsTypeError);
    ("__proto__", ThrowsTypeError) ]%string.

Fixpoint inherited_property (name : string) (proto : list (string * proto_call))
    : option proto_call :=
  match proto with
  | [] => None
  | (k, m) :: rest => if String.eqb name k then Some m else inherited_property name rest
  end.

Inductive property :=
| Own (g : generator)
| Inherited (m : proto_call).

(** [PATTERNS[name]]; [None] is [undefined]. Every property found is an
    object or a function, hence truthy. *)
Definition get_property (name : string) : option property :=
  match own_property name PATTERNS with
  | Some g => Some (Own g)
  | None => Inherited <$> inherited_property name Object_prototype
  end.

(** *** State *)

Record Uniforms := {
  u_time : R;
  morphFactor : R;
  dispersion : R;
  u_pinch : R;
  zoom : R
}.

Record Rotation := { rx : R; ry : R; rz : R }.

(** The fields and buffers the morphing code reads and writes.  The two
    buffers are the arrays behind the [sourcePosition] and
    [targetPosition] attributes: three numbers per particle. *)
Record ParticleSystem := {
  count : nat;
  currentPattern : string;
  morphStartTime : R;
  sourcePositions : list num;
  targetPositions : list num;
  uniforms : Uniforms;
  rotation : Rotation
}.

(** How a method call ends: normally, or with an exception raised after
    the state has been brought to [a]. *)
Inductive completion (A : Type) :=
| Normal (a : A)
| Throw (a : A).
Arguments Normal {A} a.
Arguments Throw {A} a.

Definition state_of {A} (c : completion A) : A :=
  match c with Normal a => a | Throw a => a end.

(** [for (i = 0; i < targetPositions.length; i++)
       sourcePositions[i] = targetPositions[i]].
    A write past the end of a typed array is ignored. *)
Definition copy_loop (targetPositions sourcePositions : list num) : list num :=
  foldl (fun src i =>
           match targetPositions !! i with
           | Some v => <[i := v]> src
           | None => src
           end)
        sourcePositions (seq 0 (length targetPositions)).

Definition store_point (i : nat) (pos : Vector3) (targetPositions : list num)
    : list num :=
  <[i * 3 + 2 := vz pos]> (<[i * 3 + 1 := vy pos]> (<[i * 3 := vx pos]> targetPositions)).

(** The loop that generates the new targets, over the indices [idxs]. *)
Fixpoint generate_loop (patternFn : generator) (total : nat) (idxs : list nat)
    (targetPositions : list num) : Rand (list num) :=
  match idxs with
  | [] => ret targetPositions
  | i :: rest =>
      let! pos := patternFn i total in
      generate_loop patternFn total rest (store_point i pos targetPositions)
  end.

(** The same loop when [patternFn] returns a value without coordinates:
    [undefined] is stored as NaN. *)
Definition nan_loop (idxs : list nat) (targetPositions : list num) : list num :=
  foldl (fun tgt i => store_point i (Vec3 None None None) tgt) targetPositions idxs.

Definition with_pattern (ps : ParticleSystem) (name : string) (src tgt : list num)
    (start : R) : ParticleSystem :=
  {| count := count ps;
     currentPattern := name;
     morphStartTime := start;
     sourcePositions := src;
     targetPositions := tgt;
     uniforms := uniforms ps;
     rotation := rotation ps |}.

(** [setPattern(patternName)], where [now] is [performance.now() * 0.001]
    at the end of the call. *)
Definition setPattern (patternName : string) (now : R) (ps : ParticleSystem)
    : Rand (completion ParticleSystem) :=
  match get_property patternName with
  | None => ret (Normal ps)
  | Some patternFn =>
      let src := copy_loop (targetPositions ps) (sourcePositions ps) in
      match patternFn with
      | Own g =>
          let! tgt := generate_loop g (count ps) (seq 0 (count ps)) (targetPositions ps) in
          ret (Normal (with_pattern ps patternName src tgt now))
      | Inherited ReturnsNoPoint =>
          let tgt := nan_loop (seq 0 (count ps)) (targetPositions ps) in
          ret (Normal (with_pattern ps patternName src tgt now))
      | Inherited ThrowsTypeError =>
          match count ps with
          | O => ret (Normal (with_pattern ps patternName src (targetPositions ps) now))
          | S _ =>
              ret (Throw (with_pattern ps patternName src (targetPositions ps)
                            (morphStartTime ps)))
          end
      end
  end.

(** The state of [Math.random] before the [i]-th call of the generator
    in the loop of [setPattern]. *)
Fixpoint rng_before (g : generator) (total i : nat) (s : Rng) : Rng :=
  match i with
  | O => s
  | S j => snd (g j total (rng_before g total j s))
  end.

(** [updateParticleCount(newCount)]. *)
Definition updateParticleCount (cfg : Config) (newCount : nat) (ps : ParticleSystem)
    : ParticleSystem :=
  {| count := Nat.min newCount (particleCount cfg);
     currentPattern := currentPattern ps;
     morphStartTime := morphStartTime ps;
     sourcePositions := sourcePositions ps;
     targetPositions := targetPositions ps;
     uniforms := uniforms ps;
     rotation := rotation ps |}.

(** [createParticles()].  The [position], colour, size and jitter
    attributes are not part of this model; filling the last two draws four
    random numbers per particle. *)
Definition createParticles (cfg : Config) : Rand ParticleSystem :=
  fun s =>
    ({| count := particleCount cfg;
        currentPattern := "sphere";
        morphStartTime := 0;
        sourcePositions := replicate (particleCount cfg * 3) (Some 0%R);
        targetPositions := replicate (particleCount cfg * 3) (Some 0%R);
        uniforms := {| u_time := 0; morphFactor := 0; dispersion := 0;
                       u_pinch := 0; zoom := 1 |};
        rotation := {| rx := 0; ry := 0; rz := 0 |} |},
     fun n => s (particleCount cfg * 4 + n)%nat).

Definition new_ParticleSystem (cfg : Config) (now : R)
    : Rand (completion ParticleSystem) :=
  let! ps := createParticles cfg in setPattern "sphere" now ps.

(** The morph factor computed by [update]. *)
Definition blendFactor (cfg : Config) (time start : R) : R :=
  let elapsed := (time - start)%R in
  Rmin 1.0 (elapsed / morphSpeed cfg).

(** [update(gesture, deltaTime)], where [time] is
    [performance.now() * 0.001]. *)
Definition update (cfg : Config) (gesture : Gesture.GestureState) (time : R)
    (ps : ParticleSystem) : ParticleSystem :=
  {| count := count ps;
     currentPattern := currentPattern ps;
     morphStartTime := morphStartTime ps;
     sourcePositions := sourcePositions ps;
     targetPositions := targetPositions ps;
     uniforms :=
       {| u_time := time;
          morphFactor := blendFactor cfg time (morphStartTime ps);
          dispersion := ((Gesture.openness gesture - 0.5) * 2 * dispersionMultiplier cfg)%R;
          u_pinch := Gesture.pinch gesture;
          zoom := if Gesture.twoHands gesture
                  then (Gesture.gs_handsDistance gesture * 4)%R else 1%R |};
     rotation :=
       {| rx := (sin (time * 0.2) * 0.1)%R;
          ry := if Gesture.present gesture
                then (ry (rotation ps) + Gesture.rotation gesture * 0.05)%R
                else (ry (rotation ps) + rotationSpeed cfg)%R;
          rz := (cos (time * 0.15) * 0.05)%R |} |}.

(** The buffers hold three numbers for each of [capacity] particles, and
    the particle count does not exceed the capacity. *)
Definition well_formed (capacity : nat) (ps : ParticleSystem) : Prop :=
  length (sourcePositions ps) = (capacity * 3)%nat /\
  length (targetPositions ps) = (capacity * 3)%nat /\
  (count ps <= capacity)%nat.

(** A configuration with a single particle. *)
Definition one_particle : Config := {|
  particleCount := 1;
  particleSize := 1.2;
  morphSpeed := 1.5;
  rotationSpeed := 0.002;
  gestureSmoothing := 0.1;
  dispersionMultiplier := 4.0
|}.

(** The three coordinates of a point, by offset. *)
Definition coord (k : nat) (v : Vector3) : num :=
  match k with O => vx v | S O => vy v | _ => vz v end.

End Particles.


(** ** Further parts of [app.js] *)

(** *** The gesture label and the frame conditions *)

Module GestureLabel.

Import Gesture.
Local Open Scope R_scope.

(** [getGestureLabel()]. *)
Definition getGestureLabel (d : GestureDetector) : string :=
  if negb (handPresent d) then "No hand detected"
  else if Rlt_dec 0.7 (pinchStrength d) then "🤏 Pinch"
  else if Rlt_dec 0.8 (handOpenness d) then "✋ Open Hand - Expand"
  else if Rlt_dec (handOpenness d) 0.2 then "✊ Closed Fist - Contract"
  else if Rlt_dec 1.2 (Rabs (handRotation d)) then "🔄 Rotating"
  else if twoHandsPresent d then "🙌 Two Hands - Zoom"
  else "👋 Hand Tracking".

(** The wrist of the [k]-th reported hand. *)
Definition wrist_of (results : Results) (k : nat) : option Landmark :=
  hands ← multiHandLandmarks results;
  landmarks ← hands !! k;
  landmarks !! 0%nat.

(** The number of reported hands. *)
Definition hand_count (results : Results) : nat :=
  match multiHandLandmarks results with
  | Some hands => length hands
  | None => 0
  end.

(** The first wrist, when there is one, lies in the normalised frame. *)
Definition wrist_in_frame (results : Results) : Prop :=
  match first_wrist results with
  | Some w => unit_interval (x w) /\ unit_interval (y w)
  | None => True
  end.

Definition in_frame (p : Point2) : Prop :=
  unit_interval (px p) /\ unit_interval (py p).

(** The same hands reported in the other order. *)
Definition swap_hands (h1 h2 : Hand) (swapped : bool) : Results :=
  {| multiHandLandmarks := Some (if swapped then [h2; h1] else [h1; h2]) |}.

(** A hand moved as a whole by [(dx, dy, dz)]. *)
Definition translate (dx dy dz : R) (l : Landmark) : Landmark :=
  {| x := x l + dx; y := y l + dy; z := z l + dz |}.

Definition translate_hand (dx dy dz : R) (h : Hand) : Hand :=
  map (translate dx dy dz) h.

(** A hand whose landmarks all sit at one point. *)
Definition collapsed_hand (p : Landmark) : Hand := replicate 21 p.

End GestureLabel.

(** *** Sequences of calls on the particle system *)

Module ParticleOps.

Import Patterns Particles.

(** The patterns whose generator never calls [Math.random]. *)
Definition deterministic_patterns : list string :=
  [ "sphere"; "cube"; "torus"; "spiral"; "dna"; "tornado"; "cylinder"; "cone";
    "trefoilKnot"; "torusKnot"; "star"; "wave"; "ripple"; "rose"; "vortex";
    "shell"; "infinity"; "brain"; "diamond" ]%string.

(** A method call on the particle system, with the clock reading it makes. *)
Inductive call :=
| SetPattern (patternName : string) (now : R)
| UpdateParticleCount (newCount : nat)
| Update (gesture : Gesture.GestureState) (time : R).

(** One call.  An exception raised inside [setPattern] reaches the event
    loop, and the system lives on in the state the call had reached. *)
Definition perform (cfg : Config) (c : call) (ps : ParticleSystem)
    : Rand ParticleSystem :=
  match c with
  | SetPattern patternName now =>
      let! r := setPattern patternName now ps in ret (state_of r)
  | UpdateParticleCount newCount => ret (updateParticleCount cfg newCount ps)
  | Update gesture time => ret (update cfg gesture time ps)
  end.

Fixpoint perform_all (cfg : Config) (cs : list call) (ps : ParticleSystem)
    : Rand ParticleSystem :=
  match cs with
  | [] => ret ps
  | c :: rest => let! ps' := perform cfg c ps in perform_all cfg rest ps'
  end.

(** The system after the constructor and the calls [cs]. *)
Definition lifetime (cfg : Config) (start : R) (cs : list call) : Rand ParticleSystem :=
  let! r := new_ParticleSystem cfg start in perform_all cfg cs (state_of r).

(** The pattern names of the [setPattern] calls are all registered. *)
Definition registered_call (c : call) : Prop :=
  match c with
  | SetPattern patternName _ => In patternName PATTERN_LIST
  | _ => True
  end.

Definition all_finite (buffer : list num) : Prop := Forall finite buffer.

(** Well-formed, with finite numbers only in both buffers. *)
Definition sound (capacity : nat) (ps : ParticleSystem) : Prop :=
  well_formed capacity ps /\
  all_finite (sourcePositions ps) /\ all_finite (targetPositions ps).

End ParticleOps.

(** *** Where the generated points lie *)

Module PatternShape.

Import Patterns.

(** The coordinates of a point all of whose coordinates are finite. *)
Definition coords (v : Vector3) : option (R * R * R) :=
  match vx v, vy v, vz v with
  | Some x, Some y, Some z => Some (x, y, z)
  | _, _, _ => None
  end.

(** [Math.random] returns numbers in the interval [0, 1). *)
Definition unit_stream (s : Rng) : Prop := forall n, (0 <= s n < 1)%R.

(** A point lies within the given half-widths of a centre of [cloud]. *)
Definition within_box (c : Center) (hx hy hz : R) (p : R * R * R) : Prop :=
  let '(x, y, z) := p in
  exists a b c', cx c = Some a /\ cy c = Some b /\ cz c = Some c' /\
    (Rabs (x - a) <= hx /\ Rabs (y - b) <= hy /\ Rabs (z - c') <= hz)%R.

End PatternShape.

(** *** The application glue around the two classes (class [App]) *)

Module App.

Import Patterns Particles.

(** A pattern button: its [data-pattern] attribute, which may be absent,
    and whether its class list contains [active]. *)
Record Button := { pattern : option string; active : bool }.

(** [buttons.findIndex(b => b.classList.contains('active'))], searching
    from position [k]; -1 when no button is active. *)
Fixpoint findIndex_from (k : nat) (buttons : list Button) : Z :=
  match buttons with
  | [] => (-1)%Z
  | b :: rest => if active b then Z.of_nat k else findIndex_from (S k) rest
  end.

Definition findIndex_active (buttons : list Button) : Z := findIndex_from 0 buttons.

(** [buttons.forEach((b, i) => b.classList.toggle('active', i === newIndex))],
    from position [k] on. *)
Fixpoint toggle_from (k : nat) (newIndex : Z) (buttons : list Button) : list Button :=
  match buttons with
  | [] => []
  | b :: rest =>
      {| pattern := pattern b; active := Z.eqb (Z.of_nat k) newIndex |}
      :: toggle_from (S k) newIndex rest
  end.

(** The remainder operator on integers; [None] is NaN. *)
Definition int_rem (a n : Z) : option Z :=
  if Z.eqb n 0 then None else Some (Z.rem a n).

(** [buttons[j]] for an integer [j]. *)
Definition button_at (buttons : list Button) (j : Z) : option Button :=
  if Z.leb 0 j then buttons !! Z.to_nat j else None.

Record AppState := {
  buttons : list Button;
  lastSwipeTime : Z;
  particleSystem : ParticleSystem
}.

Definition with_system (app : AppState) (bs : list Button) (last : Z)
    (ps : ParticleSystem) : AppState :=
  {| buttons := bs; lastSwipeTime := last; particleSystem := ps |}.

(** The callback of [setInterval(..., 100)] in [setupEventListeners]:
    [dateNow] is [Date.now()], in milliseconds, and [perfNow] the clock
    reading that [setPattern] makes.  [setPattern(undefined)] looks up
    the key ["undefined"]. *)
Definition swipeTimer (d : Gesture.GestureDetector) (dateNow : Z) (perfNow : R)
    (app : AppState) : Rand (completion AppState) :=
  let gesture := Gesture.getGestureState d in
  match Gesture.swipe gesture with
  | Some direction =>
      if (500 <? dateNow - lastSwipeTime app)%Z then
        let n := Z.of_nat (length (buttons app)) in
        let activeIndex := findIndex_active (buttons app) in
        let newIndex :=
          match direction with
          | Gesture.SwipeRight => int_rem (activeIndex + 1) n
          | Gesture.SwipeLeft => int_rem (activeIndex - 1 + n) n
          end in
        match newIndex with
        | None => ret (Throw app)
        | Some j =>
            let buttons' := toggle_from 0 j (buttons app) in
            match button_at buttons' j with
            | None =>
                ret (Throw (with_system app buttons' (lastSwipeTime app)
                              (particleSystem app)))
            | Some b =>
                let name := default "undefined"%string (pattern b) in
                let! r := setPattern name perfNow (particleSystem app) in
                match r with
                | Normal ps' => ret (Normal (with_system app buttons' dateNow ps'))
                | Throw ps' =>
                    ret (Throw (with_system app buttons' (lastSwipeTime app) ps'))
                end
            end
        end
      else ret (Normal app)
  | None => ret (Normal app)
  end.

(** The index a swipe moves to, among [n] buttons. *)
Definition next_index (direction : Gesture.Swipe) (activeIndex n : Z) : Z :=
  match direction with
  | Gesture.SwipeRight => Z.rem (activeIndex + 1) n
  | Gesture.SwipeLeft => Z.rem (activeIndex - 1 + n) n
  end.

(** Every button carries the name of a registered pattern. *)
Definition buttons_registered (bs : list Button) : Prop :=
  Forall (fun b => exists p, pattern b = Some p /\ In p PATTERN_LIST) bs.

(** The pairs of landmarks joined by a line in the preview. *)
Definition HAND_CONNECTIONS : list (nat * nat) :=
  [ (0, 1); (1, 2); (2, 3); (3, 4);
    (0, 5); (5, 6); (6, 7); (7, 8);
    (0, 9); (9, 10); (10, 11); (11, 12);
    (0, 13); (13, 14); (14, 15); (15, 16);
    (0, 17); (17, 18); (18, 19); (19, 20);
    (5, 9); (9, 13); (13, 17) ]%nat.

(** A stroked line, from [(x0, y0)] to [(x1, y1)] in canvas pixels. *)
Record Segment := { x0 : R; y0 : R; x1 : R; y1 : R }.

(** [drawConnectors(ctx, landmarks, connections, style)], as the list of
    the lines it strokes on a canvas of the given size; [None] when a
    landmark is missing. *)
Fixpoint drawConnectors (width height : R) (landmarks : Gesture.Hand)
    (connections : list (nat * nat)) : option (list Segment) :=
  match connections with
  | [] => Some []
  | (start, stop) :: rest =>
      startPoint ← landmarks !! start;
      endPoint ← landmarks !! stop;
      lines ← drawConnectors width height landmarks rest;
      Some ({| x0 := (Gesture.x startPoint * width)%R;
               y0 := (Gesture.y startPoint * height)%R;
               x1 := (Gesture.x endPoint * width)%R;
               y1 := (Gesture.y endPoint * height)%R |} :: lines)
  end.

Definition on_canvas (width height : R) (l : Segment) : Prop :=
  (0 <= x0 l <= width /\ 0 <= y0 l <= height /\
   0 <= x1 l <= width /\ 0 <= y1 l <= height)%R.

Definition landmark_in_frame (l : Gesture.Landmark) : Prop :=
  (0 <= Gesture.x l <= 1 /\ 0 <= Gesture.y l <= 1)%R.

End App.

(** * Properties *)

(** ** Gesture detection *)

Module GestureFacts.

Import Gesture.
Local Open Scope R_scope.

Lemma hand_21 (h : Hand) :
  length h = 21%nat ->
  exists l0 l1 l2 l3 l4 l5 l6 l7 l8 l9 l10 l11 l12 l13 l14 l15 l16 l17 l18 l19 l20,
    h = [l0; l1; l2; l3; l4; l5; l6; l7; l8; l9; l10; l11; l12; l13; l14; l15;
         l16; l17; l18; l19; l20].
Proof.
  intros H.
  do 21 (destruct h as [|? h]; [discriminate H|]).
  destruct h; [|discriminate H].
  repeat eexists.
Qed.

Ltac landmarks h H :=
  let E := fresh "E" in
  destruct (hand_21 h H)
    as (?l0&?l1&?l2&?l3&?l4&?l5&?l6&?l7&?l8&?l9&?l10&?l11&?l12&?l13&?l14&?l15&
        ?l16&?l17&?l18&?l19&?l20&E);
  subst h.

Lemma dist3_nonneg a b : 0 <= dist3 a b.
Proof. apply sqrt_pos. Qed.

Lemma dist2_nonneg a b : 0 <= dist2 a b.
Proof. apply sqrt_pos. Qed.

(** The divisions of [calculateOpenness] are by a positive number. *)
Lemma finger_denominator_pos base palm : 0 < dist3 base palm + 0.001.
Proof. pose proof (dist3_nonneg base palm). lra. Qed.

Lemma calculatePinch_range landmarks p :
  calculatePinch landmarks = Some p -> 0 <= p <= 1.
Proof.
  unfold calculatePinch.
  destruct (landmarks !! 4%nat) as [t|]; [|discriminate].
  destruct (landmarks !! 8%nat) as [i|]; [|discriminate].
  cbn. intros [= <-].
  pose proof (dist3_nonneg t i).
  split; [apply Rmax_l|apply Rmax_lub; lra].
Qed.

Lemma calculateOpenness_range landmarks o :
  calculateOpenness landmarks = Some o -> 0 <= o <= 1.
Proof.
  unfold calculateOpenness.
  destruct (landmarks !! 0%nat) as [palm|]; [|discriminate]. cbn [mbind option_bind].
  destruct (foldl _ _ _) as [t|]; [|discriminate]. cbn [mbind option_bind].
  destruct (landmarks !! 4%nat) as [a|]; [|discriminate].
  destruct (landmarks !! 2%nat) as [b|]; [|discriminate].
  cbn. intros [= <-].
  split.
  - apply Rmin_glb; [lra|apply Rmax_l].
  - apply Rmin_l.
Qed.

Lemma calculateOpenness_total landmarks :
  length landmarks = 21%nat -> is_Some (calculateOpenness landmarks).
Proof. intros H. landmarks landmarks H. cbn. eauto. Qed.

Lemma calculateRotation_total landmarks :
  length landmarks = 21%nat -> is_Some (calculateRotation landmarks).
Proof. intros H. landmarks landmarks H. cbn. eauto. Qed.

Lemma calculatePinch_total landmarks :
  length landmarks = 21%nat -> is_Some (calculatePinch landmarks).
Proof. intros H. landmarks landmarks H. cbn. eauto. Qed.

(** On well-formed input the hand-present branch completes. *)
Lemma track_total hands landmarks d :
  Forall (fun h : Hand => length h = 21%nat) hands ->
  hands !! 0%nat = Some landmarks ->
  is_Some (track hands landmarks d).
Proof.
  intros Hwf H0.
  assert (Hl : length landmarks = 21%nat).
  { eapply (Forall_lookup_1 _ _ _ _ Hwf H0). }
  unfold track.
  destruct (calculateOpenness_total _ Hl) as [o ->].
  destruct (calculateRotation_total _ Hl) as [r ->].
  destruct (calculatePinch_total _ Hl) as [p ->].
  landmarks landmarks Hl. cbn [mbind option_bind lookup list_lookup].
  case_bool_decide as Htwo; [|eauto].
  rewrite H0. cbn [mbind option_bind lookup list_lookup].
  destruct (hands !! 1%nat) as [h2|] eqn:H1.
  - assert (Hl2 : length h2 = 21%nat) by exact (Forall_lookup_1 _ _ _ _ Hwf H1).
    landmarks h2 Hl2. cbn. eauto.
  - apply lookup_ge_None in H1. lia.
Qed.

Lemma processResults_total cfg results d :
  well_formed results -> is_Some (processResults cfg results d).
Proof.
  unfold well_formed, processResults.
  destruct (multiHandLandmarks results) as [[|h rest]|]; intros Hwf; eauto.
  destruct (track_total (h :: rest) h d Hwf eq_refl) as [d' ->].
  cbn. eauto.
Qed.

Lemma run_total cfg rs d :
  Forall well_formed rs -> is_Some (run cfg rs d).
Proof.
  intros H. revert d. induction H as [|r rs Hr _ IH]; intros d; cbn; [eauto|].
  destruct (processResults_total cfg r d Hr) as [d' ->]. cbn. apply IH.
Qed.

Lemma detectSwipe_swipe currentX d :
  swipeDirection (detectSwipe currentX d) =
  if Rlt_dec 0.15 (Rabs (currentX - lastWristX d))
  then Some (if Rlt_dec 0 (currentX - lastWristX d) then SwipeRight else SwipeLeft)
  else None.
Proof. unfold detectSwipe. destruct (Rlt_dec 0.15 _); reflexivity. Qed.

Lemma detectSwipe_last currentX d :
  lastWristX (detectSwipe currentX d) =
  if Rlt_dec 0.15 (Rabs (currentX - lastWristX d)) then currentX else lastWristX d.
Proof. unfold detectSwipe. destruct (Rlt_dec 0.15 _); reflexivity. Qed.

(** What the hand-present branch leaves in the swipe fields. *)
Lemma track_swipe hands landmarks d d' wrist :
  landmarks !! 0%nat = Some wrist ->
  track hands landmarks d = Some d' ->
  swipeDirection d' =
    (if Rlt_dec 0.15 (Rabs (x wrist - lastWristX d))
     then Some (if Rlt_dec 0 (x wrist - lastWristX d) then SwipeRight else SwipeLeft)
     else None) /\
  lastWristX d' =
    (if Rlt_dec 0.15 (Rabs (x wrist - lastWristX d)) then x wrist else lastWristX d).
Proof.
  intros Hw. unfold track. rewrite Hw.
  destruct (calculateOpenness landmarks); [|discriminate].
  destruct (calculateRotation landmarks); [|discriminate].
  destruct (calculatePinch landmarks); [|discriminate].
  cbn [mbind option_bind].
  destruct (bool_decide _).
  - destruct (hands !! 0%nat ≫= _); [|discriminate].
    destruct (hands !! 1%nat ≫= _); [|discriminate].
    cbn [mbind option_bind]. intros [= <-]. cbn [swipeDirection lastWristX].
    rewrite detectSwipe_swipe, detectSwipe_last. cbn. done.
  - intros [= <-]. rewrite detectSwipe_swipe, detectSwipe_last. cbn. done.
Qed.

(** C6: on a callback with a hand present, a swipe is emitted exactly when
    the wrist x differs from the reference x by more than 0.15; it is
    [right] exactly when the difference is positive, and the reference
    becomes the current x; otherwise the swipe flag is null and the
    reference is kept.  So a difference below 0.15 never gives a swipe and
    a difference above 0.15 always gives one in the direction of the
    move. *)
Theorem swipe_iff_threshold cfg results d landmarks rest :
  multiHandLandmarks results = Some (landmarks :: rest) ->
  well_formed results ->
  exists d' wrist,
    first_wrist results = Some wrist /\
    processResults cfg results d = Some d' /\
    let diff := x wrist - lastWristX d in
    (is_Some (swipeDirection d') <-> Rabs diff > 0.15) /\
    (swipeDirection d' = Some SwipeRight <-> Rabs diff > 0.15 /\ diff > 0) /\
    (swipeDirection d' = Some SwipeLeft <-> Rabs diff > 0.15 /\ diff < 0) /\
    (Rabs diff > 0.15 -> lastWristX d' = x wrist) /\
    (~ Rabs diff > 0.15 -> swipeDirection d' = None /\ lastWristX d' = lastWristX d) /\
    (Rabs diff < 0.15 -> swipeDirection d' = None) /\
    (diff > 0.15 -> swipeDirection d' = Some SwipeRight) /\
    (diff < - 0.15 -> swipeDirection d' = Some SwipeLeft).
Proof.
  intros Hres Hwf.
  destruct (processResults_total cfg results d Hwf) as [d' Hd'].
  unfold well_formed in Hwf. rewrite Hres in Hwf.
  assert (Hl : length landmarks = 21%nat) by (inversion Hwf; assumption).
  assert (Hw : exists wrist, landmarks !! 0%nat = Some wrist).
  { destruct landmarks; [discriminate Hl|]. eexists. reflexivity. }
  destruct Hw as [wrist Hw].
  exists d', wrist. split; [|split; [exact Hd'|]].
  { unfold first_wrist. rewrite Hres. cbn. exact Hw. }
  unfold processResults in Hd'. rewrite Hres in Hd'.
  destruct (track (landmarks :: rest) landmarks d) as [d1|] eqn:Ht; [|discriminate].
  cbn in Hd'. injection Hd' as <-.
  destruct (track_swipe _ _ _ _ _ Hw Ht) as [Hs Hx].
  cbn [smooth swipeDirection lastWristX]. rewrite Hs, Hx. clear Hs Hx Ht.
  cbv zeta. set (diff := x wrist - lastWristX d).
  destruct (Rlt_dec 0.15 (Rabs diff)) as [Hbig|Hsmall].
  - assert (Hnz : diff > 0.15 \/ diff < -0.15).
    { unfold Rabs in Hbig. destruct (Rcase_abs diff); lra. }
    destruct (Rlt_dec 0 diff) as [Hpos|Hneg];
      repeat split; intros; eauto; try lra; try discriminate; try tauto.
  - assert (Hle : - 0.15 <= diff <= 0.15).
    { unfold Rabs in Hsmall. destruct (Rcase_abs diff); lra. }
    repeat split; intros; eauto; try lra; try discriminate; try tauto;
      try (destruct H; lra); try (destruct H; discriminate).
Qed.

Lemma swipe_iff_threshold_witness :
  exists d', processResults CONFIG (one_hand 0.9) new_GestureDetector = Some d' /\
    swipeDirection d' = Some SwipeRight.
Proof.
  destruct (swipe_iff_threshold CONFIG (one_hand 0.9) new_GestureDetector
              (still_hand 0.9) [] eq_refl)
    as (d' & wrist & Hw & Hp & _ & _ & _ & _ & _ & _ & Hright & _).
  - unfold well_formed. cbn. repeat constructor.
  - exists d'. split; [exact Hp|]. apply Hright.
    cbn in Hw. injection Hw as <-. cbn. lra.
Defined.

Lemma one_hand_well_formed wx : well_formed (one_hand wx).
Proof. unfold well_formed. cbn. repeat constructor. Defined.

Lemma two_hands_well_formed wx wx2 : well_formed (two_hands wx wx2).
Proof. unfold well_formed. cbn. repeat constructor. Defined.

(** C7: the pinch target is [max(0, 1 - 5 d)], where [d] is the distance
    between the thumb tip (landmark 4) and the index tip (landmark 8),
    the square root of the sum of the squared coordinate differences; it
    lies in [0, 1], is 0 once [d >= 0.2], and a smaller distance never
    gives a smaller pinch. *)
Theorem pinch_of_distance (h1 h2 : Hand) :
  length h1 = 21%nat -> length h2 = 21%nat ->
  exists t1 i1 t2 i2 p1 p2,
    h1 !! 4%nat = Some t1 /\ h1 !! 8%nat = Some i1 /\
    h2 !! 4%nat = Some t2 /\ h2 !! 8%nat = Some i2 /\
    calculatePinch h1 = Some p1 /\ calculatePinch h2 = Some p2 /\
    let d1 := sqrt ((x t1 - x i1) ^ 2 + (y t1 - y i1) ^ 2 + (z t1 - z i1) ^ 2) in
    let d2 := sqrt ((x t2 - x i2) ^ 2 + (y t2 - y i2) ^ 2 + (z t2 - z i2) ^ 2) in
    p1 = Rmax 0 (1 - 5 * d1) /\
    0 <= p1 <= 1 /\
    (0.2 <= d1 -> p1 = 0) /\
    (d1 <= d2 -> p2 <= p1).
Proof.
  intros H1 H2. landmarks h1 H1. landmarks h2 H2.
  do 6 eexists.
  split; [reflexivity|]. split; [reflexivity|].
  split; [reflexivity|]. split; [reflexivity|].
  split; [reflexivity|]. split; [reflexivity|].
  cbv zeta. unfold dist3.
  match goal with
  | |- context [Rmax 0 (1 - sqrt ?a * 5) = Rmax 0 (1 - 5 * sqrt ?a)] =>
      pose proof (sqrt_pos a) as Hd1; generalize dependent (sqrt a)
  end.
  intros d1 Hd1.
  match goal with
  | |- context [Rmax 0 (1 - sqrt ?b * 5) <= _] =>
      pose proof (sqrt_pos b) as Hd2; generalize dependent (sqrt b)
  end.
  intros d2 Hd2.
  repeat split.
  - f_equal. lra.
  - apply Rmax_l.
  - apply Rmax_lub; lra.
  - intros Hfar. apply Rmax_left. lra.
  - intros Hle. apply Rmax_lub; [apply Rmax_l|].
    eapply Rle_trans; [|apply Rmax_r]. lra.
Qed.

Lemma pinch_of_distance_witness :
  exists p1 p2,
    calculatePinch (pinching_hand 0.1) = Some p1 /\
    calculatePinch (pinching_hand 0.3) = Some p2 /\
    p1 = Rmax 0 (1 - 5 * sqrt ((0.5 - (0.5 + 0.1)) ^ 2 + (0.5 - 0.5) ^ 2 + (0 - 0) ^ 2)) /\
    p2 <= p1.
Proof.
  destruct (pinch_of_distance (pinching_hand 0.1) (pinching_hand 0.3) eq_refl eq_refl)
    as (t1 & i1 & t2 & i2 & p1 & p2 & Ht1 & Hi1 & Ht2 & Hi2 & Hp1 & Hp2
        & Hval & _ & _ & Hmono).
  cbn in Ht1, Hi1, Ht2, Hi2.
  injection Ht1 as <-. injection Hi1 as <-. injection Ht2 as <-. injection Hi2 as <-.
  cbn [x y z] in Hval, Hmono.
  exists p1, p2. split; [exact Hp1|]. split; [exact Hp2|]. split; [exact Hval|].
  apply Hmono. apply sqrt_le_1_alt. nra.
Defined.

(** One idle callback: the flags, the target and one smoothing step. *)
Lemma processResults_no_hands cfg results d :
  no_hands results ->
  processResults cfg results d = Some (smooth cfg (idle d)).
Proof. unfold processResults. intros [-> | ->]; reflexivity. Qed.

(** The openness after [n] idle callbacks, in closed form. *)
Lemma run_no_hands_openness cfg rs d :
  Forall no_hands rs ->
  exists d', run cfg rs d = Some d' /\
    handOpenness d' - 0.5 =
    (1 - gestureSmoothing cfg) ^ length rs * (handOpenness d - 0.5) /\
    (rs <> [] -> targetOpenness d' = 0.5 /\ handPresent d' = false).
Proof.
  intros H. revert d. induction H as [|r rs Hr _ IH]; intros d.
  - exists d. cbn. split; [reflexivity|]. split; [lra|congruence].
  - cbn [run]. rewrite (processResults_no_hands _ _ _ Hr). cbn [mbind option_bind].
    destruct (IH (smooth cfg (idle d))) as (d' & Hrun & Hval & Htgt).
    exists d'. split; [exact Hrun|]. split.
    + rewrite Hval. cbn. lra.
    + intros _. destruct rs as [|r' rs'].
      * cbn in Hrun. injection Hrun as <-. cbn. done.
      * apply Htgt. discriminate.
Qed.

(** C8: a callback with no hand clears [handPresent], sets the openness
    target to 0.5 and the swipe to null, and moves the smoothed openness
    by one smoothing step only; while such callbacks continue the
    smoothed openness comes within any [eps > 0] of 0.5, for every
    smoothing factor in (0, 1]. *)
Theorem no_hand_idle_converges cfg :
  0 < gestureSmoothing cfg <= 1 ->
  (forall results d, no_hands results ->
     exists d', processResults cfg results d = Some d' /\
       handPresent d' = false /\
       targetOpenness d' = 0.5 /\
       swipeDirection d' = None /\
       handOpenness d' =
         handOpenness d + (0.5 - handOpenness d) * gestureSmoothing cfg) /\
  (forall d eps, 0 < eps ->
     exists N, forall rs, Forall no_hands rs -> (N <= length rs)%nat ->
       exists d', run cfg rs d = Some d' /\ Rabs (handOpenness d' - 0.5) < eps).
Proof.
  intros Hf. split.
  - intros results d Hno. eexists. split; [apply processResults_no_hands, Hno|].
    cbn. done.
  - intros d eps Heps.
    set (q := 1 - gestureSmoothing cfg).
    assert (Hq : Rabs q < 1).
    { unfold q. rewrite Rabs_right; lra. }
    assert (Hbound : 0 < eps / (Rabs (handOpenness d - 0.5) + 1)).
    { apply Rdiv_lt_0_compat; [lra|]. pose proof (Rabs_pos (handOpenness d - 0.5)). lra. }
    destruct (pow_lt_1_zero q Hq _ Hbound) as [N HN].
    exists N. intros rs Hrs Hlen.
    destruct (run_no_hands_openness cfg rs d Hrs) as (d' & Hrun & Hval & _).
    exists d'. split; [exact Hrun|].
    rewrite Hval. fold q. rewrite Rabs_mult.
    specialize (HN (length rs)). 
    assert (Hpow : Rabs (q ^ length rs) < eps / (Rabs (handOpenness d - 0.5) + 1)).
    { apply HN. lia. }
    pose proof (Rabs_pos (handOpenness d - 0.5)) as Ha.
    pose proof (Rabs_pos (q ^ length rs)) as Hb.
    set (A := Rabs (handOpenness d - 0.5)) in *.
    set (B := Rabs (q ^ length rs)) in *.
    assert (Hmul : B * (A + 1) < eps).
    { apply (Rmult_lt_compat_r (A + 1)) in Hpow; [|lra].
      unfold Rdiv in Hpow. rewrite Rmult_assoc, Rinv_l in Hpow; lra. }
    nra.
Qed.

Lemma CONFIG_smoothing : 0 < gestureSmoothing CONFIG <= 1.
Proof. cbn. lra. Defined.

Lemma no_hand_idle_converges_witness :
  exists d', processResults CONFIG no_hand new_GestureDetector = Some d' /\
    handPresent d' = false /\ targetOpenness d' = 0.5.
Proof.
  destruct (proj1 (no_hand_idle_converges CONFIG CONFIG_smoothing)
              no_hand new_GestureDetector (or_introl eq_refl))
    as (d' & Hp & Hh & Ht & _).
  exists d'. split; [exact Hp|]. split; [exact Hh|exact Ht].
Defined.

Lemma smooth_convex s t f :
  0 < f <= 1 -> unit_interval s -> unit_interval t ->
  unit_interval (s + (t - s) * f).
Proof. unfold unit_interval. intros Hf Hs Ht. split; nra. Qed.

Lemma smooth_bounded cfg d :
  0 < gestureSmoothing cfg <= 1 -> bounded d -> bounded (smooth cfg d).
Proof.
  intros Hf (Ho & Hp & Hto & Htp). unfold bounded. cbn.
  repeat split; try apply smooth_convex; try apply Ho; try apply Hp;
    try apply Hto; try apply Htp; assumption.
Qed.

Lemma track_bounded hands landmarks d d' :
  bounded d -> track hands landmarks d = Some d' -> bounded d'.
Proof.
  intros (Ho & Hp & _ & _). unfold track.
  destruct (calculateOpenness landmarks) as [o|] eqn:Eo; [|discriminate].
  destruct (calculateRotation landmarks); [|discriminate].
  destruct (landmarks !! 0%nat); [|discriminate].
  destruct (calculatePinch landmarks) as [p|] eqn:Ep; [|discriminate].
  apply calculateOpenness_range in Eo. apply calculatePinch_range in Ep.
  cbn [mbind option_bind].
  destruct (bool_decide _).
  - destruct (hands !! 0%nat ≫= _); [|discriminate].
    destruct (hands !! 1%nat ≫= _); [|discriminate].
    cbn [mbind option_bind]. intros [= <-].
    unfold bounded, detectSwipe. destruct (Rlt_dec _ _); cbn; done.
  - intros [= <-]. unfold bounded, detectSwipe. destruct (Rlt_dec _ _); cbn; done.
Qed.

Lemma idle_bounded d : bounded d -> bounded (idle d).
Proof.
  intros (Ho & Hp & _ & Htp). unfold bounded, unit_interval. cbn.
  repeat split; try apply Ho; try apply Hp; try apply Htp; lra.
Qed.

Lemma processResults_bounded cfg results d d' :
  0 < gestureSmoothing cfg <= 1 ->
  bounded d -> processResults cfg results d = Some d' -> bounded d'.
Proof.
  intros Hf Hb. unfold processResults.
  destruct (multiHandLandmarks results) as [[|h rest]|].
  - intros [= <-]. apply smooth_bounded, idle_bounded; assumption.
  - destruct (track _ _ _) as [d1|] eqn:Ht; [|discriminate].
    cbn. intros [= <-]. eapply smooth_bounded, track_bounded; eassumption.
  - intros [= <-]. apply smooth_bounded, idle_bounded; assumption.
Qed.

Lemma run_bounded cfg rs d d' :
  0 < gestureSmoothing cfg <= 1 ->
  bounded d -> run cfg rs d = Some d' -> bounded d'.
Proof.
  intros Hf. revert d. induction rs as [|r rs IH]; intros d Hb; cbn.
  - intros [= <-]. exact Hb.
  - destruct (processResults cfg r d) as [d1|] eqn:Hp; [|discriminate].
    cbn. apply IH. eapply processResults_bounded; eassumption.
Qed.

Lemma new_GestureDetector_bounded : bounded new_GestureDetector.
Proof. unfold bounded, unit_interval. cbn. lra. Qed.

(** C9: with a smoothing factor in (0, 1], every [processResults] call
    keeps the smoothed openness and pinch (and their targets) in [0, 1];
    they start there, so they stay there after any sequence of
    callbacks, and on well-formed input every call completes. *)
Theorem smoothed_values_stay_in_unit_interval cfg :
  0 < gestureSmoothing cfg <= 1 ->
  bounded new_GestureDetector /\
  (forall results d d',
     bounded d -> processResults cfg results d = Some d' -> bounded d') /\
  (forall results d, well_formed results -> is_Some (processResults cfg results d)) /\
  (forall rs, Forall well_formed rs ->
     exists d', run cfg rs new_GestureDetector = Some d' /\
       0 <= handOpenness d' <= 1 /\ 0 <= pinchStrength d' <= 1).
Proof.
  intros Hf. split; [apply new_GestureDetector_bounded|].
  split; [intros; eapply processResults_bounded; eassumption|].
  split; [intros; apply processResults_total; assumption|].
  intros rs Hrs.
  destruct (run_total cfg rs new_GestureDetector Hrs) as [d' Hd'].
  exists d'. split; [exact Hd'|].
  destruct (run_bounded cfg rs _ d' Hf new_GestureDetector_bounded Hd')
    as (Ho & Hp & _).
  split; assumption.
Qed.

Lemma smoothed_values_stay_in_unit_interval_witness :
  exists d', run CONFIG [one_hand 0.9; no_hand] new_GestureDetector = Some d' /\
    0 <= handOpenness d' <= 1 /\ 0 <= pinchStrength d' <= 1.
Proof.
  apply (smoothed_values_stay_in_unit_interval CONFIG CONFIG_smoothing).
  repeat constructor.
Defined.

(** The fields the hand-present branch writes from the first hand only. *)
Lemma track_first_hand hands1 hands2 landmarks d d1 d2 :
  track hands1 landmarks d = Some d1 ->
  track hands2 landmarks d = Some d2 ->
  same_single_hand d1 d2 /\ handsDistance d1 = handsDistance d2.
Proof.
  unfold track.
  destruct (calculateOpenness landmarks); [|discriminate].
  destruct (calculateRotation landmarks); [|discriminate].
  destruct (landmarks !! 0%nat); [|discriminate].
  destruct (calculatePinch landmarks); [|discriminate].
  cbn [mbind option_bind].
  destruct (bool_decide (2 <= length hands1)%nat), (bool_decide (2 <= length hands2)%nat);
    repeat match goal with
      | |- context [mbind ?f (?hs !! ?k)] =>
          destruct (mbind f (hs !! k)); [|try discriminate; intros ?; discriminate];
          cbn [mbind option_bind]
      end;
    intros [= <-] [= <-]; unfold same_single_hand, detectSwipe;
    destruct (Rlt_dec _ _); cbn; done.
Qed.

(** C10: two results with at least one hand each and the same first hand,
    processed from the same state, agree on every signal of a single
    hand: the targets for openness, rotation, position and pinch, the
    swipe decision and the smoothed values; in the branch that sets the
    targets the other hands reach [twoHandsPresent] and
    [targetHandsDistance] only. *)
Theorem single_hand_signals_from_first_hand cfg r1 r2 d landmarks rest1 rest2 :
  multiHandLandmarks r1 = Some (landmarks :: rest1) ->
  multiHandLandmarks r2 = Some (landmarks :: rest2) ->
  well_formed r1 -> well_formed r2 ->
  (exists t1 t2,
     track (landmarks :: rest1) landmarks d = Some t1 /\
     track (landmarks :: rest2) landmarks d = Some t2 /\
     same_single_hand t1 t2 /\ handsDistance t1 = handsDistance t2) /\
  (exists d1 d2,
     processResults cfg r1 d = Some d1 /\
     processResults cfg r2 d = Some d2 /\
     same_single_hand d1 d2).
Proof.
  intros H1 H2 Hwf1 Hwf2. unfold well_formed in Hwf1, Hwf2.
  rewrite H1 in Hwf1. rewrite H2 in Hwf2.
  destruct (track_total (landmarks :: rest1) landmarks d Hwf1 eq_refl) as [t1 Ht1].
  destruct (track_total (landmarks :: rest2) landmarks d Hwf2 eq_refl) as [t2 Ht2].
  destruct (track_first_hand _ _ _ _ _ _ Ht1 Ht2) as [Hsame Hdist].
  split.
  - exists t1, t2. done.
  - exists (smooth cfg t1), (smooth cfg t2).
    unfold processResults. rewrite H1, H2, Ht1, Ht2. cbn [mbind option_bind].
    split; [reflexivity|]. split; [reflexivity|].
    destruct Hsame as (E1&E2&E3&E4&E5&E6&E7&E8&E9&E10&E11).
    unfold same_single_hand. cbn.
    rewrite E1, E2, E3, E4, E5, E6, E7, E8, E9, E10, E11. done.
Qed.

Lemma single_hand_signals_from_first_hand_witness :
  exists d1 d2,
    processResults CONFIG (one_hand 0.5) new_GestureDetector = Some d1 /\
    processResults CONFIG (two_hands 0.5 0.7) new_GestureDetector = Some d2 /\
    same_single_hand d1 d2.
Proof.
  exact (proj2 (single_hand_signals_from_first_hand CONFIG (one_hand 0.5)
                  (two_hands 0.5 0.7) new_GestureDetector (still_hand 0.5) []
                  [still_hand 0.7] eq_refl eq_refl
                  (one_hand_well_formed 0.5) (two_hands_well_formed 0.5 0.7))).
Defined.

End GestureFacts.

(** ** The particle system *)

Module ParticleFacts.

Import Patterns Particles.

(** *** The two loops of [setPattern] *)

Lemma copy_loop_prefix (tgt : list num) n (src : list num) :
  (n <= length tgt)%nat -> length src = length tgt ->
  foldl (fun s i => match tgt !! i with Some v => <[i := v]> s | None => s end)
        src (seq 0 n)
  = take n tgt ++ drop n src.
Proof.
  intros Hn Hlen. induction n as [|n IH].
  - cbn. rewrite drop_0. reflexivity.
  - rewrite seq_S, foldl_app, IH by lia. cbn.
    destruct (tgt !! n) as [v|] eqn:Hv.
    + rewrite insert_app_r_alt by (rewrite length_take; lia).
      rewrite length_take, Nat.min_l, Nat.sub_diag by lia.
      rewrite (take_S_r _ _ _ Hv), <- app_assoc. f_equal.
      destruct (drop n src) as [|w rest] eqn:Hd.
      * apply (f_equal length) in Hd. rewrite length_drop in Hd. cbn in Hd. lia.
      * cbn. f_equal.
        change rest with (drop 1 (w :: rest)). rewrite <- Hd, drop_drop.
        f_equal. lia.
    + apply lookup_ge_None in Hv. lia.
Qed.

(** With buffers of equal length the copy loop makes the source buffer
    equal to the target buffer. *)
Lemma copy_loop_copies (tgt src : list num) :
  length src = length tgt -> copy_loop tgt src = tgt.
Proof.
  intros Hlen. unfold copy_loop.
  rewrite copy_loop_prefix by lia.
  rewrite firstn_all, drop_ge by lia. apply app_nil_r.
Qed.

Lemma copy_loop_length (tgt src : list num) :
  length (copy_loop tgt src) = length src.
Proof.
  unfold copy_loop. generalize (seq 0 (length tgt)) as l. intros l. revert src.
  induction l as [|i l IH]; intros src; [reflexivity|].
  cbn. rewrite IH. destruct (tgt !! i); [apply length_insert|reflexivity].
Qed.

Lemma store_point_length i pos (tgt : list num) :
  length (store_point i pos tgt) = length tgt.
Proof. unfold store_point. rewrite !length_insert. reflexivity. Qed.

Lemma store_point_lookup_other i pos (tgt : list num) j :
  (j < i * 3 \/ i * 3 + 3 <= j)%nat ->
  store_point i pos tgt !! j = tgt !! j.
Proof.
  intros H. unfold store_point.
  rewrite !list_lookup_insert_ne by lia. reflexivity.
Qed.

Lemma store_point_lookup i pos (tgt : list num) k :
  (k < 3)%nat -> (i * 3 + k < length tgt)%nat ->
  store_point i pos tgt !! (i * 3 + k)%nat = Some (coord k pos).
Proof.
  intros Hk Hlen. unfold store_point.
  destruct k as [|[|[|k]]]; [| | |lia]; cbn [coord].
  - rewrite !list_lookup_insert_ne by lia.
    rewrite Nat.add_0_r. apply list_lookup_insert_eq. lia.
  - rewrite list_lookup_insert_ne by lia.
    apply list_lookup_insert_eq. rewrite length_insert. lia.
  - apply list_lookup_insert_eq. rewrite !length_insert. lia.
Qed.

Lemma generate_loop_app g total l1 l2 (tgt : list num) s :
  generate_loop g total (l1 ++ l2) tgt s =
  let '(t1, s1) := generate_loop g total l1 tgt s in
  generate_loop g total l2 t1 s1.
Proof.
  revert tgt s. induction l1 as [|i l1 IH]; intros tgt s; cbn.
  - reflexivity.
  - unfold bind. destruct (g i total s) as [pos s']. apply IH.
Qed.

(** The state after the loop has run over the first [n] indices. *)
Lemma generate_loop_spec g total n (tgt : list num) s :
  let r := generate_loop g total (seq 0 n) tgt s in
  snd r = rng_before g total n s /\
  length (fst r) = length tgt /\
  (forall i k, (i < n)%nat -> (k < 3)%nat -> (i * 3 + k < length tgt)%nat ->
     fst r !! (i * 3 + k)%nat =
     Some (coord k (fst (g i total (rng_before g total i s))))) /\
  (forall j, (n * 3 <= j)%nat -> fst r !! j = tgt !! j).
Proof.
  induction n as [|n IH].
  - cbn. repeat split. intros; lia.
  - rewrite seq_S, generate_loop_app. cbn [Nat.add].
    destruct (generate_loop g total (seq 0 n) tgt s) as [t1 s1].
    cbn [fst snd] in IH. destruct IH as (Hs & Hlen & Hin & Hout).
    cbn [generate_loop rng_before]. unfold bind, ret. subst s1.
    destruct (g n total (rng_before g total n s)) as [pos s2] eqn:Hg.
    cbn [fst snd]. repeat split.
    + rewrite store_point_length. exact Hlen.
    + intros i k Hi Hk Hb.
      destruct (decide (i = n)) as [->|Hne].
      * rewrite store_point_lookup by lia. rewrite Hg. reflexivity.
      * rewrite store_point_lookup_other by lia. apply Hin; lia.
    + intros j Hj. rewrite store_point_lookup_other by lia. apply Hout. lia.
Qed.

Lemma nan_loop_length idxs (tgt : list num) :
  length (nan_loop idxs tgt) = length tgt.
Proof.
  unfold nan_loop. revert tgt. induction idxs as [|i l IH]; intros tgt; [reflexivity|].
  cbn. rewrite IH. apply store_point_length.
Qed.

(** Every own key of [PATTERNS] is found by the property lookup. *)
Lemma registered_get_property p g :
  registered p g -> get_property p = Some (Own g).
Proof.
  unfold registered, PATTERNS. cbn [In]. intros H.
  repeat (destruct H as [H|H]; [injection H as <- <-; reflexivity|]).
  destruct H.
Qed.

(** C1: for a registered pattern and a positive particle count,
    [setPattern] leaves the old target buffer in the source buffer, puts
    at every index below the count the point that the registered
    generator gives for that index and the count, and sets
    [morphStartTime] to the current time. *)
Theorem setPattern_retargets capacity p g now ps s :
  registered p g ->
  (0 < count ps)%nat ->
  well_formed capacity ps ->
  exists ps',
    fst (setPattern p now ps s) = Normal ps' /\
    sourcePositions ps' = targetPositions ps /\
    (forall i k, (i < count ps)%nat -> (k < 3)%nat ->
       targetPositions ps' !! (i * 3 + k)%nat =
       Some (coord k (fst (g i (count ps) (rng_before g (count ps) i s))))) /\
    (forall j, (count ps * 3 <= j)%nat ->
       targetPositions ps' !! j = targetPositions ps !! j) /\
    morphStartTime ps' = now /\
    currentPattern ps' = p /\
    count ps' = count ps /\
    well_formed capacity ps'.
Proof.
  intros Hreg Hpos (Hsrc & Htgt & Hcount).
  unfold setPattern. rewrite (registered_get_property _ _ Hreg). unfold bind, ret.
  pose proof (generate_loop_spec g (count ps) (count ps) (targetPositions ps) s) as Hspec.
  destruct (generate_loop g (count ps) (seq 0 (count ps)) (targetPositions ps) s)
    as [tgt s'].
  cbn [fst snd] in Hspec. destruct Hspec as (_ & Hlen & Hin & Hout).
  eexists. split; [reflexivity|]. cbn.
  split; [|split; [|split; [|split; [|split; [|split; [|split]]]]]]; try reflexivity.
  - apply copy_loop_copies. lia.
  - intros i k Hi Hk. apply Hin; lia.
  - exact Hout.
  - cbn. rewrite copy_loop_length. exact Hsrc.
  - cbn. lia.
Qed.

Lemma setPattern_retargets_witness :
  let s := fun _ : nat => 0%R in
  let ps := fst (createParticles one_particle s) in
  exists ps', fst (setPattern "cube" 7 ps s) = Normal ps' /\
    sourcePositions ps' = targetPositions ps /\ morphStartTime ps' = 7%R.
Proof.
  intros s ps.
  destruct (setPattern_retargets 1 "cube" cube 7 ps s)
    as (ps' & H1 & H2 & _ & _ & H3 & _).
  - unfold registered, PATTERNS. cbn [In]. right. left. reflexivity.
  - cbn. lia.
  - unfold well_formed. cbn. repeat split; lia.
  - exists ps'. split; [exact H1|]. split; [exact H2|exact H3].
Defined.

(** The constructor's buffers and the count bound, and their
    preservation by the other methods. *)
Lemma createParticles_well_formed cfg s :
  well_formed (particleCount cfg) (fst (createParticles cfg s)).
Proof. unfold well_formed. cbn. rewrite !length_replicate. lia. Qed.

Lemma updateParticleCount_well_formed cfg newCount ps :
  well_formed (particleCount cfg) ps ->
  well_formed (particleCount cfg) (updateParticleCount cfg newCount ps).
Proof. unfold well_formed. cbn. intros (? & ? & ?). repeat split; lia. Qed.

Lemma update_well_formed capacity cfg gesture time ps :
  well_formed capacity ps -> well_formed capacity (update cfg gesture time ps).
Proof. unfold well_formed. cbn. tauto. Qed.

Lemma own_property_None p obj :
  ~ In p (map fst obj) -> own_property p obj = None.
Proof.
  induction obj as [|[k g] rest IH]; cbn; [reflexivity|]. intros H.
  destruct (String.eqb_spec p k) as [->|_]; [tauto|]. apply IH. tauto.
Qed.

Lemma inherited_property_None p proto :
  ~ In p (map fst proto) -> inherited_property p proto = None.
Proof.
  induction proto as [|[k m] rest IH]; cbn; [reflexivity|]. intros H.
  destruct (String.eqb_spec p k) as [->|_]; [tauto|]. apply IH. tauto.
Qed.

(** A name found neither in [PATTERNS] nor in [Object.prototype] is
    rejected and nothing changes. *)
Lemma setPattern_undefined p now ps s :
  ~ In p PATTERN_LIST -> ~ In p (map fst Object_prototype) ->
  setPattern p now ps s = (Normal ps, s).
Proof.
  intros Hown Hproto. unfold setPattern, get_property.
  rewrite (own_property_None _ _ Hown), (inherited_property_None _ _ Hproto).
  reflexivity.
Qed.

(** C2 fails on the code: ["constructor"] is not a registered pattern
    name, yet [setPattern("constructor")] passes the guard, because the
    lookup finds [Object.prototype.constructor]; from every state the
    call completes with [currentPattern] and [morphStartTime]
    overwritten, and on the one-particle system just created it turns
    the target buffer into NaNs. *)
Theorem setPattern_constructor_mutates :
  ~ In "constructor"%string PATTERN_LIST /\
  (forall now ps s,
     exists ps', fst (setPattern "constructor" now ps s) = Normal ps' /\
       currentPattern ps' = "constructor"%string /\
       morphStartTime ps' = now) /\
  (let s := fun _ : nat => 0%R in
   let ps := fst (createParticles one_particle s) in
   let ps' := state_of (fst (setPattern "constructor" 7 ps s)) in
   currentPattern ps = "sphere"%string /\
   currentPattern ps' = "constructor"%string /\
   targetPositions ps = [Some 0%R; Some 0%R; Some 0%R] /\
   targetPositions ps' = [None; None; None] /\
   morphStartTime ps = 0%R /\
   morphStartTime ps' = 7%R).
Proof.
  split; [|split].
  - intros H. repeat (destruct H as [H|H]; [discriminate H|]). destruct H.
  - intros now ps s. eexists. split; [reflexivity|]. split; reflexivity.
  - cbn. repeat split; reflexivity.
Qed.

(** [sphere] draws no random number. *)
Lemma sphere_deterministic i total s :
  sphere i total s = (fst (sphere i total (fun _ => 0%R)), s).
Proof. reflexivity. Qed.

(** C5: [setPattern('sphere')] twice in a row: the second call leaves the
    target buffer as the first call made it. *)
Theorem setPattern_sphere_idempotent now1 now2 ps s :
  let r1 := setPattern "sphere" now1 ps s in
  let r2 := setPattern "sphere" now2 (state_of (fst r1)) (snd r1) in
  (exists ps1 ps2, fst r1 = Normal ps1 /\ fst r2 = Normal ps2) /\
  targetPositions (state_of (fst r2)) = targetPositions (state_of (fst r1)).
Proof.
  cbv zeta. unfold setPattern.
  change (get_property "sphere") with (Some (Own sphere)).
  unfold bind, ret. cbv beta iota.
  pose proof (generate_loop_spec sphere (count ps) (count ps) (targetPositions ps) s)
    as H1.
  destruct (generate_loop sphere (count ps) (seq 0 (count ps)) (targetPositions ps) s)
    as [t1 s1].
  cbn [fst snd state_of with_pattern count targetPositions] in *.
  pose proof (generate_loop_spec sphere (count ps) (count ps) t1 s1) as H2.
  destruct (generate_loop sphere (count ps) (seq 0 (count ps)) t1 s1) as [t2 s2].
  cbn [fst snd state_of with_pattern count targetPositions] in *.
  split; [eauto|].
  destruct H1 as (_ & Hlen1 & Hin1 & Hout1), H2 as (_ & Hlen2 & Hin2 & Hout2).
  apply list_eq. intros j.
  destruct (decide (count ps * 3 <= j)%nat) as [Hge|Hlt]; [apply Hout2, Hge|].
  destruct (decide (j < length t1)%nat) as [Hj|Hj].
  - assert (Hdm : j = ((j / 3) * 3 + j mod 3)%nat).
    { pose proof (Nat.div_mod_eq j 3). lia. }
    assert (Hm : (j mod 3 < 3)%nat) by (apply Nat.mod_upper_bound; lia).
    assert (Hd : (j / 3 < count ps)%nat) by lia.
    rewrite Hdm.
    rewrite Hin2, Hin1 by lia.
    rewrite (sphere_deterministic _ _ (rng_before _ _ _ s1)).
    rewrite (sphere_deterministic _ _ (rng_before _ _ _ s)).
    reflexivity.
  - rewrite !lookup_ge_None_2 by lia. reflexivity.
Qed.

(** C3: the morph factor that [update] computes is
    [min(1, (t - morphStartTime) / morphSpeed)]; from the start time on it
    lies in [0, 1], it never decreases with time, and it is exactly 1 from
    [morphStartTime + morphSpeed] on; [update] does not move the start
    time. *)
Theorem blendFactor_clamped_monotone cfg :
  (0 < morphSpeed cfg)%R ->
  (forall gesture t ps,
     morphFactor (uniforms (update cfg gesture t ps)) =
       Rmin 1 ((t - morphStartTime ps) / morphSpeed cfg) /\
     morphFactor (uniforms (update cfg gesture t ps)) =
       blendFactor cfg t (morphStartTime ps) /\
     morphStartTime (update cfg gesture t ps) = morphStartTime ps) /\
  (forall start t, (start <= t)%R -> (0 <= blendFactor cfg t start <= 1)%R) /\
  (forall start t1 t2, (t1 < t2)%R ->
     (blendFactor cfg t1 start <= blendFactor cfg t2 start)%R) /\
  (forall start t, (start + morphSpeed cfg <= t)%R -> blendFactor cfg t start = 1%R).
Proof.
  intros Hd.
  assert (Hinv : (0 < / morphSpeed cfg)%R) by (apply Rinv_0_lt_compat; exact Hd).
  split; [|split; [|split]].
  - intros gesture t ps. cbn. unfold blendFactor.
    replace 1.0%R with 1%R by lra. done.
  - intros start t Ht. unfold blendFactor. replace 1.0%R with 1%R by lra. split.
    + apply Rmin_glb; [lra|]. unfold Rdiv. apply Rmult_le_pos; lra.
    + apply Rmin_l.
  - intros start t1 t2 Hlt. unfold blendFactor.
    apply Rmin_glb; [apply Rmin_l|].
    eapply Rle_trans; [apply Rmin_r|].
    unfold Rdiv. apply Rmult_le_compat_r; lra.
  - intros start t Ht. unfold blendFactor. replace 1.0%R with 1%R by lra.
    apply Rmin_left.
    apply (Rmult_le_reg_r (morphSpeed cfg)); [exact Hd|].
    unfold Rdiv. rewrite Rmult_assoc, Rinv_l by lra. lra.
Qed.

Lemma blendFactor_clamped_monotone_witness : blendFactor CONFIG 3 0 = 1%R.
Proof.
  apply (blendFactor_clamped_monotone CONFIG).
  - cbn. lra.
  - cbn. lra.
Defined.

End ParticleFacts.

(** ** The pattern catalogue *)

Module PatternFacts.

Import Patterns.
Local Open Scope R_scope.

Lemma ndiv_fin x y : y <> 0 -> ndiv (Some x) (Some y) = Some (x / y).
Proof. intros H. unfold ndiv. destruct (Req_dec_T y 0); [contradiction|reflexivity]. Qed.

Lemma nmod_fin x y :
  y <> 0 -> nmod (Some x) (Some y) = Some (x - y * IZR (Rtrunc (x / y))).
Proof. intros H. unfold nmod. destruct (Req_dec_T y 0); [contradiction|reflexivity]. Qed.

Lemma Math_sqrt_fin x : 0 <= x -> Math_sqrt (Some x) = Some (sqrt x).
Proof. intros H. unfold Math_sqrt. destruct (Rlt_dec x 0); [lra|reflexivity]. Qed.

Lemma Math_acos_fin x : -1 <= x <= 1 -> Math_acos (Some x) = Some (acos x).
Proof.
  intros [H1 H2]. unfold Math_acos.
  destruct (Rle_dec (-1) x); [|contradiction].
  destruct (Rle_dec x 1); [reflexivity|contradiction].
Qed.

Lemma cbrt_pos x : 0 < x -> 0 < cbrt x.
Proof.
  intros H. unfold cbrt. destruct (Rlt_dec 0 x); [|contradiction].
  unfold Rpower. apply exp_pos.
Qed.

(** The argument of [acos] in [sphere] and [explosion]. *)
Lemma lattice_argument_range i total :
  (i < total)%nat -> -1 <= -1 + 2 * INR i / INR total <= 1.
Proof.
  intros H.
  assert (Hi : 0 <= INR i) by apply pos_INR.
  assert (Ht : INR i < INR total) by (apply lt_INR; exact H).
  assert (Hq : 0 <= INR i / INR total <= 1).
  { split.
    - apply Rmult_le_pos; [exact Hi|]. left. apply Rinv_0_lt_compat. lra.
    - apply (Rmult_le_reg_r (INR total)); [lra|].
      unfold Rdiv. rewrite Rmult_assoc, Rinv_l by lra. lra. }
  unfold Rdiv in *. rewrite Rmult_assoc. lra.
Qed.

Ltac positive :=
  match goal with
  | |- 0 < INR _ => assumption
  | |- 0 < PI => exact PI_RGT_0
  | |- 0 < sqrt _ => apply sqrt_lt_R0; positive
  | |- 0 < cbrt _ => apply cbrt_pos; positive
  | |- 0 < _ * _ => apply Rmult_lt_0_compat; positive
  | |- 0 < _ / _ => apply Rdiv_lt_0_compat; positive
  | |- 0 < 1 + ?a * ?a => pose proof (Rle_0_sqr a) as Hsq; unfold Rsqr in Hsq; lra
  | |- 0 < _ => lra
  end.

Ltac nonzero := apply Rgt_not_eq, Rlt_gt; positive.

Ltac nonneg := 
  match goal with
  | |- 0 <= _ / _ => apply Rmult_le_pos; [nonneg | left; apply Rinv_0_lt_compat; positive]
  | |- 0 <= INR _ => apply pos_INR
  | |- 0 <= ?a * ?a + ?b * ?b => pose proof (Rle_0_sqr a) as Hsa; pose proof (Rle_0_sqr b) as Hsb; unfold Rsqr in Hsa, Hsb; lra
  | |- 0 <= _ => left; positive
  end.

Ltac evaluate :=
  unfold Math_PI;
  repeat first
    [ progress cbn [nadd nsub nmul nneg lift1 lift2 Math_PI Math_sin Math_cos
                    Math_exp Math_abs Math_cbrt Math_floor Math_pow]
    | rewrite ndiv_fin by nonzero
    | rewrite nmod_fin by nonzero
    | rewrite Math_sqrt_fin by nonneg
    | rewrite Math_acos_fin by (apply lattice_argument_range; assumption) ].

Ltac draw := unfold bind, Math_random, ret; cbn [fst snd].

Ltac finish := draw; unfold finite_point, finite; cbn [vx vy vz fst]; evaluate; eauto.

Section Finite.

Variables (i total : nat) (s : Rng).
Hypothesis Hi : (i < total)%nat.
Hypothesis Htotal : 0 < INR total.

Lemma sphere_finite : finite_point (fst (sphere i total s)).
Proof. unfold sphere. cbv zeta. finish. Qed.

Lemma cube_finite : finite_point (fst (cube i total s)).
Proof. unfold cube. cbv zeta. finish. Qed.

Lemma torus_finite : finite_point (fst (torus i total s)).
Proof. unfold torus. cbv zeta. finish. Qed.

Lemma heart_finite : finite_point (fst (heart i total s)).
Proof. unfold heart. cbv zeta. finish. Qed.

Lemma wave_finite : finite_point (fst (wave i total s)).
Proof. unfold wave. cbv zeta. finish. Qed.

Lemma ripple_finite : finite_point (fst (ripple i total s)).
Proof. unfold ripple. cbv zeta. finish. Qed.

Lemma infinity_finite : finite_point (fst (infinity i total s)).
Proof. unfold infinity. cbv zeta. finish. Qed.

Lemma spiral_finite : finite_point (fst (spiral i total s)).
Proof. unfold spiral. cbv zeta. finish. Qed.

Lemma galaxy_finite : finite_point (fst (galaxy i total s)).
Proof. unfold galaxy. cbv zeta. finish. Qed.

Lemma dna_finite : finite_point (fst (dna i total s)).
Proof. unfold dna. cbv zeta. finish. Qed.

Lemma tornado_finite : finite_point (fst (tornado i total s)).
Proof. unfold tornado. cbv zeta. finish. Qed.

Lemma pyramid_finite : finite_point (fst (pyramid i total s)).
Proof. unfold pyramid. cbv zeta. finish. Qed.

Lemma cylinder_finite : finite_point (fst (cylinder i total s)).
Proof. unfold cylinder. cbv zeta. finish. Qed.

Lemma cone_finite : finite_point (fst (cone i total s)).
Proof. unfold cone. cbv zeta. finish. Qed.

Lemma trefoilKnot_finite : finite_point (fst (trefoilKnot i total s)).
Proof. unfold trefoilKnot. cbv zeta. finish. Qed.

Lemma torusKnot_finite : finite_point (fst (torusKnot i total s)).
Proof. unfold torusKnot. cbv zeta. finish. Qed.

Lemma star_finite : finite_point (fst (star i total s)).
Proof. unfold star. cbv zeta. finish. Qed.

Lemma explosion_finite : finite_point (fst (explosion i total s)).
Proof. unfold explosion. cbv zeta. finish. Qed.

Lemma butterfly_finite : finite_point (fst (butterfly i total s)).
Proof. unfold butterfly. cbv zeta. finish. Qed.

Lemma rose_finite : finite_point (fst (rose i total s)).
Proof. unfold rose. cbv zeta. finish. Qed.

Lemma vortex_finite : finite_point (fst (vortex i total s)).
Proof. unfold vortex. cbv zeta. finish. Qed.

Lemma shell_finite : finite_point (fst (shell i total s)).
Proof. unfold shell. cbv zeta. finish. Qed.

Lemma brain_finite : finite_point (fst (brain i total s)).
Proof. unfold brain. cbv zeta. finish. Qed.

Lemma lightning_finite : finite_point (fst (lightning i total s)).
Proof. unfold lightning. cbv zeta. finish. Qed.

Lemma atom_finite : finite_point (fst (atom i total s)).
Proof.
  unfold atom. cbv zeta. evaluate.
  destruct (nlt _ _); finish.
Qed.

Lemma orbit_finite : finite_point (fst (orbit i total s)).
Proof.
  unfold orbit. cbv zeta. evaluate.
  destruct (nlt _ _); finish.
Qed.

Lemma diamond_finite : finite_point (fst (diamond i total s)).
Proof.
  unfold diamond. cbv zeta. evaluate.
  destruct (nlt _ _); finish.
Qed.

Lemma snowflake_finite : finite_point (fst (snowflake i total s)).
Proof.
  unfold snowflake. cbv zeta. draw. evaluate.
  destruct (nseq _ _); finish.
Qed.

Lemma center_finite (k : num) :
  let c := or_else (array_get centers k) {| cx := Some 0; cy := Some 0; cz := Some 0 |} in
  exists a b c', cx c = Some a /\ cy c = Some b /\ cz c = Some c'.
Proof.
  cbv zeta. destruct (array_get centers k) as [c|] eqn:Hc; cbn [or_else].
  - unfold array_get in Hc. destruct k as [r|]; [|discriminate].
    destruct (Rle_dec 0 r); [|discriminate].
    destruct (Req_dec_T _ r); [|discriminate].
    apply list_elem_of_lookup_2, list_elem_of_In in Hc.
    cbn in Hc.
    repeat (destruct Hc as [<-|Hc]; [cbn; do 3 eexists; repeat split; reflexivity|]).
    destruct Hc.
  - cbn. do 3 eexists. repeat split; reflexivity.
Qed.

Lemma cloud_finite : finite_point (fst (cloud i total s)).
Proof.
  unfold cloud. cbv zeta.
  destruct (center_finite (Math_floor (Some (INR i) / (Some (INR total) / Some 5))%num))
    as (a & b & c' & Ha & Hb & Hc).
  cbv zeta in Ha, Hb, Hc. draw. unfold finite_point, finite. cbn [vx vy vz fst].
  rewrite Ha, Hb, Hc. evaluate. eauto.
Qed.

(** The one array read, [centers[cluster]] in [cloud], is within bounds. *)
Lemma cloud_cluster_in_bounds :
  is_Some (array_get centers (Math_floor (Some (INR i) / (Some (INR total) / Some 5))%num)).
Proof.
  evaluate. set (r := INR i / (INR total / 5)).
  assert (Hr : 0 <= r < 5).
  { assert (Hlt : INR i < INR total) by (apply lt_INR; exact Hi).
    pose proof (pos_INR i) as Hpos.
    assert (Hd : 0 < INR total / 5) by lra.
    assert (Hrd : r * (INR total / 5) = INR i) by (unfold r; field; lra).
    split; nra. }
  destruct (base_Int_part r) as [Hlo Hhi].
  assert (Hz : (0 <= Int_part r < 5)%Z).
  { assert (Hm : IZR (-1) < IZR (Int_part r)) by lra.
    assert (Hm' : IZR (Int_part r) < IZR 5) by lra.
    apply lt_IZR in Hm, Hm'. lia. }
  unfold array_get.
  destruct (Rle_dec 0 (IZR (Int_part r))) as [_|Hn];
    [|exfalso; apply Hn, IZR_le; lia].
  assert (Hint : Int_part (IZR (Int_part r)) = Int_part r).
  { symmetry. apply Int_part_spec. lra. }
  rewrite Hint.
  destruct (Req_dec_T (IZR (Int_part r)) (IZR (Int_part r))) as [_|Hn];
    [|contradiction].
  apply lookup_lt_is_Some_2. cbn [length centers]. lia.
Qed.

End Finite.

Ltac pick lem H :=
  destruct H as [H|H]; [injection H as <- <-; apply lem; assumption|].

(** On every particle count of at least one, every registered generator
    gives a finite point at every index below the count. *)
Lemma registered_finite p g total i s :
  registered p g -> (i < total)%nat -> finite_point (fst (g i total s)).
Proof.
  intros Hreg Hi.
  assert (Ht : 0 < INR total) by (apply lt_0_INR; lia).
  unfold registered, PATTERNS in Hreg. cbn [In] in Hreg.
  pick sphere_finite Hreg.
  pick cube_finite Hreg.
  pick torus_finite Hreg.
  pick spiral_finite Hreg.
  pick heart_finite Hreg.
  pick galaxy_finite Hreg.
  pick dna_finite Hreg.
  pick tornado_finite Hreg.
  pick pyramid_finite Hreg.
  pick cylinder_finite Hreg.
  pick cone_finite Hreg.
  pick trefoilKnot_finite Hreg.
  pick torusKnot_finite Hreg.
  pick star_finite Hreg.
  pick explosion_finite Hreg.
  pick wave_finite Hreg.
  pick ripple_finite Hreg.
  pick butterfly_finite Hreg.
  pick rose_finite Hreg.
  pick atom_finite Hreg.
  pick vortex_finite Hreg.
  pick shell_finite Hreg.
  pick infinity_finite Hreg.
  pick brain_finite Hreg.
  pick diamond_finite Hreg.
  pick cloud_finite Hreg.
  pick lightning_finite Hreg.
  pick snowflake_finite Hreg.
  pick orbit_finite Hreg.
  destruct Hreg.
Qed.

(** C4: for every registered pattern and every count in 1, 2, 1000 and
    30000, the generator gives a finite point at every index below the
    count, whatever [Math.random] returns; the one array read, in
    [cloud], is within bounds, and every division and remainder has a
    non-zero divisor (a zero divisor would make the point non-finite). *)
Theorem generators_finite p g total i s :
  registered p g ->
  In total [1; 2; 1000; 30000]%nat ->
  (i < total)%nat ->
  finite_point (fst (g i total s)) /\
  is_Some (array_get centers (Math_floor (Some (INR i) / (Some (INR total) / Some 5))%num)).
Proof.
  intros Hreg _ Hi. split.
  - apply registered_finite with (p := p); assumption.
  - apply cloud_cluster_in_bounds; [exact Hi|]. apply lt_0_INR. lia.
Qed.

Lemma generators_finite_witness :
  finite_point (fst (heart 1%nat 2%nat (fun _ => 0))).
Proof.
  refine (proj1 (generators_finite "heart" heart 2%nat 1%nat (fun _ => 0) _ _ _)).
  - unfold registered, PATTERNS. cbn [In]. do 4 right. left. reflexivity.
  - cbn [In]. right. left. reflexivity.
  - lia.
Defined.

End PatternFacts.

(** ** Gesture detection, continued *)

Module GestureMore.

Import Gesture GestureLabel GestureFacts.
Local Open Scope R_scope.

(** Everything the hand-present branch leaves in the state. *)
Lemma track_fields hands landmarks d d' :
  track hands landmarks d = Some d' ->
  exists o r w p,
    calculateOpenness landmarks = Some o /\
    calculateRotation landmarks = Some r /\
    landmarks !! 0%nat = Some w /\
    calculatePinch landmarks = Some p /\
    targetOpenness d' = o /\ targetRotation d' = r /\
    targetPosition d' = {| px := x w; py := y w |} /\
    targetPinch d' = p /\
    handOpenness d' = handOpenness d /\
    handRotation d' = handRotation d /\
    handPosition d' = handPosition d /\
    pinchStrength d' = pinchStrength d /\
    handsDistance d' = handsDistance d /\
    handPresent d' = true /\
    twoHandsPresent d' = bool_decide (2 <= length hands)%nat /\
    ((length hands < 2)%nat -> targetHandsDistance d' = targetHandsDistance d) /\
    ((2 <= length hands)%nat ->
       exists w1 w2,
         hands !! 0%nat ≫= (fun h => h !! 0%nat) = Some w1 /\
         hands !! 1%nat ≫= (fun h => h !! 0%nat) = Some w2 /\
         targetHandsDistance d' = dist2 w1 w2).
Proof.
  unfold track.
  destruct (calculateOpenness landmarks) as [o|]; [|discriminate].
  destruct (calculateRotation landmarks) as [r|]; [|discriminate].
  destruct (landmarks !! 0%nat) as [w|]; [|discriminate].
  destruct (calculatePinch landmarks) as [p|]; [|discriminate].
  cbn [mbind option_bind].
  case_bool_decide as Htwo.
  - destruct (hands !! 0%nat ≫= _) as [w1|]; [|discriminate].
    destruct (hands !! 1%nat ≫= _) as [w2|]; [|discriminate].
    cbn [mbind option_bind]. intros [= <-].
    exists o, r, w, p. unfold detectSwipe. destruct (Rlt_dec _ _); cbn;
      repeat split; try reflexivity; try (intros; lia); intros _; exists w1, w2; done.
  - intros [= <-]. exists o, r, w, p. unfold detectSwipe.
    destruct (Rlt_dec _ _); cbn;
      repeat split; try reflexivity; try (intros; lia).
Qed.

(** A property kept by every callback is kept by every sequence of
    callbacks. *)
Lemma run_preserves (P : GestureDetector -> Prop) (Q : Results -> Prop) cfg :
  (forall r d d', Q r -> P d -> processResults cfg r d = Some d' -> P d') ->
  forall rs d d', Forall Q rs -> P d -> run cfg rs d = Some d' -> P d'.
Proof.
  intros Hstep rs. induction rs as [|r rs IH]; intros d d' HQ HP; cbn.
  - intros [= <-]. exact HP.
  - inversion HQ as [|? ? Hr Hrs]; subst.
    destruct (processResults cfg r d) as [d1|] eqn:Hp; [|discriminate].
    cbn. apply IH; [exact Hrs|]. eapply Hstep; eassumption.
Qed.

Lemma processResults_cases cfg results d d' :
  processResults cfg results d = Some d' ->
  (no_hands results /\ d' = smooth cfg (idle d)) \/
  (exists landmarks rest t,
     multiHandLandmarks results = Some (landmarks :: rest) /\
     track (landmarks :: rest) landmarks d = Some t /\ d' = smooth cfg t).
Proof.
  unfold processResults, no_hands.
  destruct (multiHandLandmarks results) as [[|h rest]|].
  - intros [= <-]. left. split; [right|]; reflexivity.
  - destruct (track _ _ _) as [t|] eqn:Ht; [|discriminate].
    cbn. intros [= <-]. right. exists h, rest, t. done.
  - intros [= <-]. left. split; [left|]; reflexivity.
Qed.

(** *** Rotation *)

Lemma atan2_range y x : - PI <= atan2 y x <= PI.
Proof.
  pose proof PI_RGT_0 as Hpi.
  unfold atan2.
  destruct (Rlt_dec 0 x) as [Hx|Hx].
  - pose proof (atan_bound (y / x)). lra.
  - destruct (Rlt_dec x 0) as [Hx'|Hx'].
    + pose proof (atan_bound (y / x)) as Hb.
      assert (Hinv : / x < 0) by (apply Rinv_lt_0_compat; exact Hx').
      destruct (Rle_dec 0 y) as [Hy|Hy].
      * assert (Hq : y / x <= 0) by (unfold Rdiv; nra).
        assert (Ha : atan (y / x) <= 0).
        { destruct Hq as [Hq|Hq].
          - left. rewrite <- atan_0. apply atan_increasing. exact Hq.
          - rewrite Hq, atan_0. lra. }
        lra.
      * assert (Hq : 0 < y / x) by (unfold Rdiv; nra).
        assert (Ha : 0 < atan (y / x)).
        { rewrite <- atan_0. apply atan_increasing. exact Hq. }
        lra.
    + destruct (Rlt_dec 0 y); [lra|]. destruct (Rlt_dec y 0); lra.
Qed.

Lemma calculateRotation_range landmarks r :
  calculateRotation landmarks = Some r -> - PI <= r <= PI.
Proof.
  unfold calculateRotation.
  destruct (landmarks !! 0%nat); [|discriminate].
  destruct (landmarks !! 9%nat); [|discriminate].
  cbn. intros [= <-]. apply atan2_range.
Qed.

Lemma smooth_between lo hi s t f :
  0 < f <= 1 -> lo <= s <= hi -> lo <= t <= hi -> lo <= s + (t - s) * f <= hi.
Proof. intros Hf Hs Ht. split; nra. Qed.

(** X1: the rotation target is an angle in [-PI, PI], and from the
    constructor's state the smoothed rotation never leaves [-PI, PI],
    whatever the callbacks report, for a smoothing factor in (0, 1]. *)
Theorem rotation_stays_within_half_turn cfg :
  0 < gestureSmoothing cfg <= 1 ->
  (forall landmarks r, calculateRotation landmarks = Some r -> - PI <= r <= PI) /\
  (forall rs d', run cfg rs new_GestureDetector = Some d' ->
     - PI <= handRotation d' <= PI /\ - PI <= targetRotation d' <= PI).
Proof.
  intros Hf. split; [exact calculateRotation_range|].
  intros rs d' Hrun.
  pose proof PI_RGT_0 as Hpi.
  refine (run_preserves
            (fun d => - PI <= handRotation d <= PI /\ - PI <= targetRotation d <= PI)
            (fun _ => True) cfg _ rs new_GestureDetector d' _ _ Hrun).
  - intros r d d1 _ [Hs Ht] Hp.
    destruct (processResults_cases _ _ _ _ Hp) as [[_ ->]|(lm & rest & t & _ & Htr & ->)].
    + cbn. split; [apply smooth_between; assumption|assumption].
    + destruct (track_fields _ _ _ _ Htr)
        as (o & r0 & w & p & _ & Hr & _ & _ & _ & Etr & _ & _ & _ & Ehr & _).
      apply calculateRotation_range in Hr.
      cbn. rewrite Etr, Ehr. split; [apply smooth_between; assumption|assumption].
  - apply Forall_forall. intros; exact I.
  - cbn. lra.
Qed.

(** A run used as an example: a hand at the right, then no hand. *)
Lemma sample_run :
  exists d', run CONFIG [one_hand 0.9; no_hand] new_GestureDetector = Some d'.
Proof.
  apply run_total. constructor; [apply one_hand_well_formed|].
  constructor; [exact I|constructor].
Defined.

Lemma rotation_stays_within_half_turn_witness :
  exists d', run CONFIG [one_hand 0.9; no_hand] new_GestureDetector = Some d' /\
    - PI <= handRotation d' <= PI /\ - PI <= targetRotation d' <= PI.
Proof.
  destruct sample_run as [d' Hd']. exists d'. split; [exact Hd'|].
  exact (proj2 (rotation_stays_within_half_turn CONFIG CONFIG_smoothing)
           [one_hand 0.9; no_hand] d' Hd').
Defined.

(** *** Position *)

Lemma first_wrist_cons results landmarks rest :
  multiHandLandmarks results = Some (landmarks :: rest) ->
  first_wrist results = landmarks !! 0%nat.
Proof. unfold first_wrist. intros ->. reflexivity. Qed.

(** X2: while every reported first wrist lies in the normalised frame
    [0,1] x [0,1], the position target and the smoothed position stay in
    that frame, from the constructor's state on. *)
Theorem position_stays_in_frame cfg rs d' :
  0 < gestureSmoothing cfg <= 1 ->
  Forall wrist_in_frame rs ->
  run cfg rs new_GestureDetector = Some d' ->
  in_frame (handPosition d') /\ in_frame (targetPosition d').
Proof.
  intros Hf Hrs Hrun.
  refine (run_preserves
            (fun d => in_frame (handPosition d) /\ in_frame (targetPosition d))
            wrist_in_frame cfg _ rs new_GestureDetector d' Hrs _ Hrun).
  - intros r d d1 Hw [[Hsx Hsy] [Htx Hty]] Hp.
    destruct (processResults_cases _ _ _ _ Hp) as [[_ ->]|(lm & rest & t & Hm & Htr & ->)].
    + unfold in_frame. cbn.
      repeat split; try apply smooth_convex; try apply Hsx; try apply Hsy;
        try apply Htx; try apply Hty; assumption.
    + destruct (track_fields _ _ _ _ Htr)
        as (o & r0 & w & p & _ & _ & Hw0 & _ & _ & _ & Etp & _ & _ & _ & Ehp & _).
      unfold wrist_in_frame in Hw. rewrite (first_wrist_cons _ _ _ Hm), Hw0 in Hw.
      destruct Hw as [Hwx Hwy].
      unfold in_frame. cbn. rewrite Etp, Ehp. cbn.
      repeat split; try apply smooth_convex; try apply Hsx; try apply Hsy;
        try apply Hwx; try apply Hwy; assumption.
  - unfold in_frame, unit_interval. cbn. lra.
Qed.

Lemma position_stays_in_frame_witness :
  exists d', run CONFIG [one_hand 0.9; no_hand] new_GestureDetector = Some d' /\
    in_frame (handPosition d') /\ in_frame (targetPosition d').
Proof.
  destruct sample_run as [d' Hd']. exists d'. split; [exact Hd'|].
  apply (position_stays_in_frame CONFIG [one_hand 0.9; no_hand] d').
  - exact CONFIG_smoothing.
  - repeat constructor; unfold unit_interval; cbn; lra.
  - exact Hd'.
Defined.

(** *** Two-hand distance *)

Lemma run_handsDistance_nonneg cfg rs d' :
  0 < gestureSmoothing cfg <= 1 ->
  run cfg rs new_GestureDetector = Some d' ->
  0 <= handsDistance d' /\ 0 <= targetHandsDistance d'.
Proof.
  intros Hf Hrun.
  refine (run_preserves
            (fun d => 0 <= handsDistance d /\ 0 <= targetHandsDistance d)
            (fun _ => True) cfg _ rs new_GestureDetector d' _ _ Hrun).
  - intros r d d1 _ [Hs Ht] Hp.
    destruct (processResults_cases _ _ _ _ Hp) as [[_ ->]|(lm & rest & t & _ & Htr & ->)].
    + cbn. split; [nra|assumption].
    + destruct (track_fields _ _ _ _ Htr)
        as (o & r0 & w & p & _ & _ & _ & _ & _ & _ & _ & _ & _ & _ & _ & _ & Ehd & _ & _
            & Hone & Htwo).
      assert (Htgt : 0 <= targetHandsDistance t).
      { destruct (le_lt_dec 2 (length (lm :: rest))) as [H2|H1].
        - destruct (Htwo H2) as (w1 & w2 & _ & _ & ->). apply dist2_nonneg.
        - rewrite (Hone H1). exact Ht. }
      cbn. rewrite Ehd. split; [nra|assumption].
  - apply Forall_forall. intros; exact I.
  - cbn. lra.
Qed.

(** X3: the two-hand distance target and its smoothed value are never
    negative, from the constructor's state on. *)
Theorem handsDistance_nonnegative cfg rs d' :
  0 < gestureSmoothing cfg <= 1 ->
  run cfg rs new_GestureDetector = Some d' ->
  0 <= handsDistance d' /\ 0 <= targetHandsDistance d'.
Proof. apply run_handsDistance_nonneg. Qed.

Lemma handsDistance_nonnegative_witness :
  exists d', run CONFIG [one_hand 0.9; no_hand] new_GestureDetector = Some d' /\
    0 <= handsDistance d' /\ 0 <= targetHandsDistance d'.
Proof.
  destruct sample_run as [d' Hd']. exists d'. split; [exact Hd'|].
  exact (handsDistance_nonnegative CONFIG [one_hand 0.9; no_hand] d'
           CONFIG_smoothing Hd').
Defined.

Lemma dist2_sym a b : dist2 a b = dist2 b a.
Proof. unfold dist2. f_equal. ring. Qed.

(** X4: a callback that reports fewer than two hands keeps the two-hand
    distance target (it is not reset), and one that reports two hands
    sets it to the distance between their wrists in the image plane, the
    same whichever hand comes first. *)
Theorem handsDistance_target_held cfg :
  (forall results d d',
     (hand_count results < 2)%nat ->
     processResults cfg results d = Some d' ->
     targetHandsDistance d' = targetHandsDistance d) /\
  (forall h1 h2 w1 w2 d swapped,
     h1 !! 0%nat = Some w1 -> h2 !! 0%nat = Some w2 ->
     length h1 = 21%nat -> length h2 = 21%nat ->
     exists d',
       processResults cfg (swap_hands h1 h2 swapped) d = Some d' /\
       twoHandsPresent d' = true /\
       targetHandsDistance d' =
         sqrt ((x w1 - x w2) ^ 2 + (y w1 - y w2) ^ 2)).
Proof.
  split.
  - intros results d d' Hcount Hp.
    destruct (processResults_cases _ _ _ _ Hp) as [[_ ->]|(lm & rest & t & Hm & Htr & ->)].
    + reflexivity.
    + destruct (track_fields _ _ _ _ Htr)
        as (o & r0 & w & p & _ & _ & _ & _ & _ & _ & _ & _ & _ & _ & _ & _ & _ & _ & _
            & Hone & _).
      unfold hand_count in Hcount. rewrite Hm in Hcount.
      cbn [smooth targetHandsDistance]. apply Hone. exact Hcount.
  - intros h1 h2 w1 w2 d swapped Hw1 Hw2 Hl1 Hl2.
    assert (Hwf : well_formed (swap_hands h1 h2 swapped)).
    { unfold well_formed, swap_hands. cbn. destruct swapped; repeat constructor; assumption. }
    destruct (processResults_total cfg _ d Hwf) as [d' Hp].
    exists d'. split; [exact Hp|].
    destruct (processResults_cases _ _ _ _ Hp)
      as [[[Hno|Hno] _]|(lm & rest & t & Hm & Htr & ->)];
      [destruct swapped; discriminate Hno | destruct swapped; discriminate Hno |].
    destruct (track_fields _ _ _ _ Htr)
      as (o & r0 & w & p & _ & _ & _ & _ & _ & _ & _ & _ & _ & _ & _ & _ & _ & _ & Etwo
          & _ & Htwo).
    assert (Hlen : (2 <= length (lm :: rest))%nat).
    { destruct swapped; cbn in Hm; injection Hm as <- <-; cbn; lia. }
    destruct (Htwo Hlen) as (a & b & Ha & Hb & Hd).
    cbn [smooth twoHandsPresent targetHandsDistance]. rewrite Etwo, Hd. split.
    + apply bool_decide_eq_true. exact Hlen.
    + destruct swapped; cbn in Hm; injection Hm as <- <-; simpl in Ha, Hb.
      * pose proof (eq_trans (eq_sym Ha) Hw2) as Ea.
        pose proof (eq_trans (eq_sym Hb) Hw1) as Eb.
        injection Ea as ->. injection Eb as ->.
        rewrite dist2_sym. reflexivity.
      * pose proof (eq_trans (eq_sym Ha) Hw1) as Ea.
        pose proof (eq_trans (eq_sym Hb) Hw2) as Eb.
        injection Ea as ->. injection Eb as ->.
        reflexivity.
Qed.

Lemma handsDistance_target_held_witness :
  exists d',
    processResults CONFIG (swap_hands (still_hand 0.5) (still_hand 0.7) true)
      new_GestureDetector = Some d' /\
    twoHandsPresent d' = true /\
    targetHandsDistance d' = sqrt ((0.5 - 0.7) ^ 2 + (0.5 - 0.5) ^ 2).
Proof.
  exact (proj2 (handsDistance_target_held CONFIG) (still_hand 0.5) (still_hand 0.7)
           {| x := 0.5; y := 0.5; z := 0 |} {| x := 0.7; y := 0.5; z := 0 |}
           new_GestureDetector true eq_refl eq_refl eq_refl eq_refl).
Defined.

(** *** Swipes *)

(** X5: a swipe is a one-shot event: when the same detection result is
    processed twice in a row, the second call always leaves the swipe
    null. *)
Theorem swipe_is_one_shot cfg results d d1 d2 :
  processResults cfg results d = Some d1 ->
  processResults cfg results d1 = Some d2 ->
  swipeDirection d2 = None.
Proof.
  intros H1 H2.
  destruct (processResults_cases _ _ _ _ H2) as [[_ ->]|(lm & rest & t2 & Hm & Ht2 & ->)];
    [reflexivity|].
  destruct (processResults_cases _ _ _ _ H1)
    as [[[Hno|Hno] _]|(lm' & rest' & t1 & Hm' & Ht1 & ->)];
    [rewrite Hm in Hno; discriminate Hno | rewrite Hm in Hno; discriminate Hno |].
  rewrite Hm in Hm'. injection Hm' as <- <-.
  destruct (track_fields _ _ _ _ Ht1) as (_ & _ & w & _ & _ & _ & Hw & _).
  destruct (track_swipe _ _ _ _ _ Hw Ht1) as [_ Hlast].
  destruct (track_swipe _ _ _ _ _ Hw Ht2) as [Hswipe _].
  cbn [smooth swipeDirection lastWristX] in *. rewrite Hswipe, Hlast.
  destruct (Rlt_dec 0.15 (Rabs (x w - lastWristX d))) as [Hbig|Hsmall].
  - destruct (Rlt_dec 0.15 (Rabs (x w - x w))) as [Habs|_]; [|reflexivity].
    rewrite Rminus_diag, Rabs_R0 in Habs. lra.
  - destruct (Rlt_dec 0.15 (Rabs (x w - lastWristX d))); [contradiction|reflexivity].
Qed.

Lemma swipe_is_one_shot_witness :
  exists d1 d2,
    processResults CONFIG (one_hand 0.9) new_GestureDetector = Some d1 /\
    processResults CONFIG (one_hand 0.9) d1 = Some d2 /\
    swipeDirection d2 = None.
Proof.
  destruct (processResults_total CONFIG (one_hand 0.9) new_GestureDetector
              (one_hand_well_formed 0.9)) as [d1 H1].
  destruct (processResults_total CONFIG (one_hand 0.9) d1
              (one_hand_well_formed 0.9)) as [d2 H2].
  exists d1, d2. split; [exact H1|]. split; [exact H2|].
  exact (swipe_is_one_shot CONFIG (one_hand 0.9) new_GestureDetector d1 d2 H1 H2).
Defined.

(** *** Losing the hand *)

(** What a run of callbacks without hands leaves untouched, and how far
    each smoothed value still is from its target. *)
Lemma run_no_hands_state cfg rs d :
  Forall no_hands rs ->
  exists d', run cfg rs d = Some d' /\
    let q := (1 - gestureSmoothing cfg) ^ length rs in
    targetPinch d' = targetPinch d /\
    targetRotation d' = targetRotation d /\
    targetPosition d' = targetPosition d /\
    targetHandsDistance d' = targetHandsDistance d /\
    lastWristX d' = lastWristX d /\
    twoHandsPresent d' = twoHandsPresent d /\
    pinchStrength d' - targetPinch d = q * (pinchStrength d - targetPinch d) /\
    handRotation d' - targetRotation d = q * (handRotation d - targetRotation d) /\
    handsDistance d' - targetHandsDistance d =
      q * (handsDistance d - targetHandsDistance d) /\
    px (handPosition d') - px (targetPosition d) =
      q * (px (handPosition d) - px (targetPosition d)) /\
    py (handPosition d') - py (targetPosition d) =
      q * (py (handPosition d) - py (targetPosition d)).
Proof.
  intros H. revert d. induction H as [|r rs Hr _ IH]; intros d.
  - exists d. cbn. split; [reflexivity|]. repeat split; lra.
  - cbn [run]. rewrite (processResults_no_hands _ _ _ Hr). cbn [mbind option_bind].
    destruct (IH (smooth cfg (idle d)))
      as (d' & Hrun & E1 & E2 & E3 & E4 & E5 & E6 & V1 & V2 & V3 & V4 & V5).
    exists d'. split; [exact Hrun|].
    cbn in E1, E2, E3, E4, E5, E6, V1, V2, V3, V4, V5. cbn.
    rewrite E1, E2, E3, E4, E5, E6.
    repeat split; try reflexivity; [rewrite V1|rewrite V2|rewrite V3|rewrite V4|rewrite V5];
      ring.
Qed.

Lemma geometric_small q a eps :
  Rabs q < 1 -> 0 < eps ->
  exists N, forall n, (N <= n)%nat -> Rabs (q ^ n * a) < eps.
Proof.
  intros Hq Heps.
  assert (Hbound : 0 < eps / (Rabs a + 1)).
  { apply Rdiv_lt_0_compat; [lra|]. pose proof (Rabs_pos a). lra. }
  destruct (pow_lt_1_zero q Hq _ Hbound) as [N HN].
  exists N. intros n Hn. rewrite Rabs_mult.
  assert (Hpow : Rabs (q ^ n) < eps / (Rabs a + 1)) by (apply HN; lia).
  pose proof (Rabs_pos a) as Ha. pose proof (Rabs_pos (q ^ n)) as Hb.
  assert (Hmul : Rabs (q ^ n) * (Rabs a + 1) < eps).
  { apply (Rmult_lt_compat_r (Rabs a + 1)) in Hpow; [|lra].
    unfold Rdiv in Hpow. rewrite Rmult_assoc, Rinv_l in Hpow; lra. }
  nra.
Qed.

(** X6: when the hand is lost, every run of callbacks without hands
    completes and keeps the targets for pinch, rotation, position and
    two-hand distance, the swipe reference and the two-hands flag as they
    were; the smoothed pinch, rotation and two-hand distance therefore
    settle on the last targets seen (they do not fall back to zero),
    within any [eps > 0] after enough callbacks. *)
Theorem lost_hand_holds_last_targets cfg :
  0 < gestureSmoothing cfg <= 1 ->
  (forall d rs, Forall no_hands rs ->
     exists d', run cfg rs d = Some d' /\
       targetPinch d' = targetPinch d /\
       targetRotation d' = targetRotation d /\
       targetPosition d' = targetPosition d /\
       targetHandsDistance d' = targetHandsDistance d /\
       lastWristX d' = lastWristX d /\
       twoHandsPresent d' = twoHandsPresent d) /\
  (forall d eps, 0 < eps ->
     exists N, forall rs, Forall no_hands rs -> (N <= length rs)%nat ->
       exists d', run cfg rs d = Some d' /\
         Rabs (pinchStrength d' - targetPinch d) < eps /\
         Rabs (handRotation d' - targetRotation d) < eps /\
         Rabs (handsDistance d' - targetHandsDistance d) < eps).
Proof.
  intros Hf. split.
  - intros d rs Hrs.
    destruct (run_no_hands_state cfg rs d Hrs)
      as (d' & Hrun & E1 & E2 & E3 & E4 & E5 & E6 & _).
    exists d'. split; [exact Hrun|]. repeat split; assumption.
  - intros d eps Heps.
    assert (Hq : Rabs (1 - gestureSmoothing cfg) < 1) by (rewrite Rabs_right; lra).
    destruct (geometric_small _ (pinchStrength d - targetPinch d) eps Hq Heps)
      as [N1 H1].
    destruct (geometric_small _ (handRotation d - targetRotation d) eps Hq Heps)
      as [N2 H2].
    destruct (geometric_small _ (handsDistance d - targetHandsDistance d) eps Hq Heps)
      as [N3 H3].
    exists (N1 + N2 + N3)%nat. intros rs Hrs Hlen.
    destruct (run_no_hands_state cfg rs d Hrs)
      as (d' & Hrun & _ & _ & _ & _ & _ & _ & V1 & V2 & V3 & _).
    exists d'. split; [exact Hrun|].
    rewrite V1, V2, V3.
    repeat split; [apply H1|apply H2|apply H3]; lia.
Qed.

(** The state after one callback with a collapsed hand: the pinch target
    is 1. *)
Lemma pinched_state :
  exists d1, processResults CONFIG (one_hand 0.9) new_GestureDetector = Some d1 /\
    targetPinch d1 = 1.
Proof.
  destruct (processResults_total CONFIG (one_hand 0.9) new_GestureDetector
              (one_hand_well_formed 0.9)) as [d1 H1].
  exists d1. split; [exact H1|].
  destruct (processResults_cases _ _ _ _ H1)
    as [[[Hno|Hno] _]|(lm & rest & t & Hm & Htr & ->)];
    [discriminate Hno|discriminate Hno|].
  cbn in Hm. injection Hm as <- <-.
  destruct (track_fields _ _ _ _ Htr)
    as (o & r & w & p & _ & _ & _ & Hp & _ & _ & _ & Etp & _).
  cbn [smooth targetPinch]. rewrite Etp.
  cbn in Hp. injection Hp as <-.
  unfold dist3. replace (_ + _ + _) with 0 by ring. rewrite sqrt_0.
  replace (1 - 0 * 5) with 1 by lra. apply Rmax_right. lra.
Defined.

Lemma lost_hand_holds_last_targets_witness :
  exists d1, processResults CONFIG (one_hand 0.9) new_GestureDetector = Some d1 /\
    targetPinch d1 = 1 /\
    (exists d', run CONFIG [no_hand; no_hand] d1 = Some d' /\ targetPinch d' = 1) /\
    exists N, forall rs, Forall no_hands rs -> (N <= length rs)%nat ->
      exists d', run CONFIG rs d1 = Some d' /\ Rabs (pinchStrength d' - 1) < 0.001.
Proof.
  destruct pinched_state as (d1 & Hd1 & Hp1).
  exists d1. split; [exact Hd1|]. split; [exact Hp1|].
  pose proof (lost_hand_holds_last_targets CONFIG CONFIG_smoothing) as [Hkeep Hconv].
  split.
  - destruct (Hkeep d1 [no_hand; no_hand]) as (d' & Hrun & E1 & _).
    + repeat constructor.
    + exists d'. split; [exact Hrun|]. rewrite E1. exact Hp1.
  - destruct (Hconv d1 0.001) as [N HN]; [lra|].
    exists N. intros rs Hrs Hlen.
    destruct (HN rs Hrs Hlen) as (d' & Hrun & V1 & _).
    exists d'. split; [exact Hrun|]. rewrite <- Hp1. exact V1.
Defined.

(** *** Signals that depend on the shape of the hand only *)

Lemma dist3_translate dx dy dz a b :
  dist3 (translate dx dy dz a) (translate dx dy dz b) = dist3 a b.
Proof. unfold dist3, translate. cbn. f_equal. ring. Qed.

Lemma dist2_translate dx dy dz a b :
  dist2 (translate dx dy dz a) (translate dx dy dz b) = dist2 a b.
Proof. unfold dist2, translate. cbn. f_equal. ring. Qed.

Lemma translate_hand_lookup dx dy dz (h : Hand) k :
  translate_hand dx dy dz h !! k = translate dx dy dz <$> h !! k.
Proof. unfold translate_hand. apply list_lookup_fmap. Qed.

Lemma finger_step_translate dx dy dz (h : Hand) palm acc i :
  finger_step (translate_hand dx dy dz h) (translate dx dy dz palm) acc i =
  finger_step h palm acc i.
Proof.
  unfold finger_step.
  destruct (fingerTips !! i) as [tipIx|]; [|reflexivity].
  destruct (fingerBases !! i) as [baseIx|]; [|reflexivity].
  cbn [mbind option_bind]. rewrite !translate_hand_lookup.
  destruct (h !! tipIx) as [tip|]; [|reflexivity].
  destruct (h !! baseIx) as [base|]; [|reflexivity].
  cbn. rewrite !dist3_translate. reflexivity.
Qed.

(** X7: openness, rotation and pinch depend on the shape of the hand
    only: moving every landmark by the same offset changes none of them
    (nor whether the computation raises an exception). *)
Theorem hand_signals_translation_invariant dx dy dz (h : Hand) :
  calculateOpenness (translate_hand dx dy dz h) = calculateOpenness h /\
  calculateRotation (translate_hand dx dy dz h) = calculateRotation h /\
  calculatePinch (translate_hand dx dy dz h) = calculatePinch h.
Proof.
  split; [|split].
  - unfold calculateOpenness. rewrite !translate_hand_lookup.
    destruct (h !! 0%nat) as [palm|]; [|reflexivity]. cbn [fmap option_fmap option_map mbind option_bind].
    assert (Hfold : forall l acc,
      foldl (fun acc i => acc ≫= fun t =>
               finger_step (translate_hand dx dy dz h) (translate dx dy dz palm) t i)
            acc l =
      foldl (fun acc i => acc ≫= fun t => finger_step h palm t i) acc l).
    { induction l as [|i l IH]; intros acc; [reflexivity|]. cbn [foldl].
      rewrite IH. f_equal. destruct acc; [|reflexivity]. cbn.
      apply finger_step_translate. }
    rewrite Hfold. destruct (foldl _ _ _) as [t|]; [|reflexivity].
    cbn [mbind option_bind].
    destruct (h !! 4%nat) as [a|]; [|reflexivity].
    destruct (h !! 2%nat) as [b|]; [|reflexivity].
    cbn. rewrite dist2_translate. reflexivity.
  - unfold calculateRotation. rewrite !translate_hand_lookup.
    destruct (h !! 0%nat) as [a|]; [|reflexivity].
    destruct (h !! 9%nat) as [b|]; [|reflexivity].
    cbn. do 2 f_equal; ring.
  - unfold calculatePinch. rewrite !translate_hand_lookup.
    destruct (h !! 4%nat) as [a|]; [|reflexivity].
    destruct (h !! 8%nat) as [b|]; [|reflexivity].
    cbn. rewrite dist3_translate. reflexivity.
Qed.

Lemma dist3_same p : dist3 p p = 0.
Proof.
  unfold dist3. replace (_ + _ + _) with 0 by ring. apply sqrt_0.
Qed.

Lemma dist2_same p : dist2 p p = 0.
Proof.
  unfold dist2. replace (_ + _) with 0 by ring. apply sqrt_0.
Qed.

(** X8: a hand collapsed to a single point is handled without a division
    by zero: it reads as fully closed (openness 0), fully pinched
    (pinch 1) and not rotated (rotation 0). *)
Theorem collapsed_hand_signals p :
  calculateOpenness (collapsed_hand p) = Some 0 /\
  calculatePinch (collapsed_hand p) = Some 1 /\
  calculateRotation (collapsed_hand p) = Some 0.
Proof.
  split; [|split].
  - cbn. rewrite !dist3_same, dist2_same. f_equal.
    assert (Hz : 0 / (0 + 0.001) = 0) by (unfold Rdiv; apply Rmult_0_l).
    rewrite Hz. rewrite Rmax_left by lra. apply Rmin_right. lra.
  - cbn. rewrite dist3_same. f_equal.
    replace (1 - 0 * 5) with 1 by lra. apply Rmax_right. lra.
  - cbn. f_equal. unfold atan2. rewrite !Rminus_diag.
    destruct (Rlt_dec 0 0); [lra|]. reflexivity.
Qed.

(** *** The label *)

(** X9: after a callback the label is "No hand detected" exactly when
    the callback reported no hand; and while a hand is present a pinch
    above 0.7 takes the label whatever the other signals are. *)
Theorem label_follows_presence cfg results d d' :
  processResults cfg results d = Some d' ->
  (getGestureLabel d' = "No hand detected"%string <-> no_hands results) /\
  (handPresent d' = true -> 0.7 < pinchStrength d' ->
     getGestureLabel d' = "🤏 Pinch"%string).
Proof.
  intros Hp.
  assert (Hpres : handPresent d' = true <-> ~ no_hands results).
  { destruct (processResults_cases _ _ _ _ Hp) as [[Hno ->]|(lm & rest & t & Hm & Htr & ->)].
    - cbn. split; [discriminate|tauto].
    - destruct (track_fields _ _ _ _ Htr)
        as (_ & _ & _ & _ & _ & _ & _ & _ & _ & _ & _ & _ & _ & _ & _ & _ & _ & Hh & _).
      cbn. rewrite Hh. split; [|reflexivity].
      intros _ [Hno|Hno]; rewrite Hm in Hno; discriminate Hno. }
  split.
  - unfold getGestureLabel.
    destruct (handPresent d') eqn:Hh; cbn [negb].
    + split; [|intros Hno; exfalso; apply (proj1 Hpres eq_refl Hno)].
      repeat (destruct (Rlt_dec _ _); [discriminate|]).
      destruct (twoHandsPresent d'); discriminate.
    + split; [|reflexivity]. intros _.
      destruct (multiHandLandmarks results) as [[|h rest]|] eqn:Hm;
        [right; exact Hm| |left; exact Hm].
      exfalso. assert (Hn : ~ no_hands results).
      { intros [Hno|Hno]; rewrite Hm in Hno; discriminate Hno. }
      apply Hpres in Hn. discriminate Hn.
  - intros Hh Hpinch. unfold getGestureLabel. rewrite Hh. cbn [negb].
    destruct (Rlt_dec 0.7 (pinchStrength d')); [reflexivity|contradiction].
Qed.

Lemma label_follows_presence_witness :
  exists d', processResults CONFIG no_hand new_GestureDetector = Some d' /\
    getGestureLabel d' = "No hand detected"%string.
Proof.
  eexists. split; [reflexivity|].
  apply (proj1 (label_follows_presence CONFIG no_hand new_GestureDetector _ eq_refl)).
  left. reflexivity.
Defined.

End GestureMore.

(** ** The particle system, continued *)

Module ParticleMore.

Import Patterns Particles ParticleOps ParticleFacts.

Lemma generate_loop_length g total n (tgt : list num) s :
  length (fst (generate_loop g total (seq 0 n) tgt s)) = length tgt.
Proof. exact (proj1 (proj2 (generate_loop_spec g total n tgt s))). Qed.

(** X10: a name that is neither an own key of [PATTERNS] nor a key of
    [Object.prototype] is rejected: [setPattern] returns at once, the
    particle system is unchanged and no random number is drawn. *)
Theorem setPattern_rejects_unknown_names p now ps s :
  ~ In p PATTERN_LIST -> ~ In p (map fst Object_prototype) ->
  get_property p = None /\
  setPattern p now ps s = (Normal ps, s).
Proof.
  intros Hown Hproto.
  assert (Hget : get_property p = None).
  { unfold get_property.
    rewrite (own_property_None _ _ Hown), (inherited_property_None _ _ Hproto).
    reflexivity. }
  split; [exact Hget|]. unfold setPattern. rewrite Hget. reflexivity.
Qed.

Lemma setPattern_rejects_unknown_names_witness :
  setPattern "hexagon" 7 (fst (createParticles one_particle (fun _ => 0%R)))
    (fun _ => 0%R)
  = (Normal (fst (createParticles one_particle (fun _ => 0%R))), fun _ => 0%R).
Proof.
  apply setPattern_rejects_unknown_names.
  - intros H. repeat (destruct H as [H|H]; [discriminate H|]). destruct H.
  - intros H. repeat (destruct H as [H|H]; [discriminate H|]). destruct H.
Defined.

Lemma setPattern_sizes patternName now ps s :
  let ps' := state_of (fst (setPattern patternName now ps s)) in
  length (sourcePositions ps') = length (sourcePositions ps) /\
  length (targetPositions ps') = length (targetPositions ps) /\
  count ps' = count ps /\
  uniforms ps' = uniforms ps /\
  rotation ps' = rotation ps.
Proof.
  cbv zeta. unfold setPattern.
  destruct (get_property patternName) as [[g|[|]]|]; unfold bind, ret.
  - pose proof (generate_loop_length g (count ps) (count ps) (targetPositions ps) s) as Hl.
    destruct (generate_loop _ _ _ _ _) as [tgt s']. cbn in *.
    rewrite copy_loop_length. done.
  - cbn. rewrite copy_loop_length, nan_loop_length. done.
  - destruct (count ps) eqn:Hc; cbn; rewrite copy_loop_length, ?Hc; done.
  - cbn. done.
Qed.

(** X11: no call of [setPattern], whatever string it is given and however
    it ends, changes the length of a buffer, the particle count, the
    uniforms or the rotation. *)
Theorem setPattern_keeps_buffer_sizes patternName now ps s :
  let ps' := state_of (fst (setPattern patternName now ps s)) in
  length (sourcePositions ps') = length (sourcePositions ps) /\
  length (targetPositions ps') = length (targetPositions ps) /\
  count ps' = count ps /\
  uniforms ps' = uniforms ps /\
  rotation ps' = rotation ps.
Proof. apply setPattern_sizes. Qed.

(** *** Repeating a pattern *)

Lemma deterministic_registered p :
  In p deterministic_patterns ->
  exists g, get_property p = Some (Own g) /\
    forall i total s, g i total s = (fst (g i total (fun _ => 0%R)), s).
Proof.
  unfold deterministic_patterns. cbn [In]. intros H.
  repeat (destruct H as [<-|H];
          [eexists; split;
           [reflexivity
           |first [reflexivity
                  |intros i total s; unfold diamond; cbv zeta;
                   destruct (nlt _ _); reflexivity]]|]).
  destruct H.
Qed.

(** X12: for each of the 19 patterns that draw no random number, calling
    [setPattern] twice in a row with that pattern leaves the target
    buffer after the second call exactly as the first call left it. *)
Theorem setPattern_deterministic_idempotent p now1 now2 ps s :
  In p deterministic_patterns ->
  let r1 := setPattern p now1 ps s in
  let r2 := setPattern p now2 (state_of (fst r1)) (snd r1) in
  (exists ps1 ps2, fst r1 = Normal ps1 /\ fst r2 = Normal ps2) /\
  targetPositions (state_of (fst r2)) = targetPositions (state_of (fst r1)).
Proof.
  intros Hp. destruct (deterministic_registered p Hp) as (g & Hg & Hpure).
  cbv zeta. unfold setPattern. rewrite Hg. unfold bind, ret. cbv beta iota.
  pose proof (generate_loop_spec g (count ps) (count ps) (targetPositions ps) s) as H1.
  destruct (generate_loop g (count ps) (seq 0 (count ps)) (targetPositions ps) s)
    as [t1 s1].
  cbn [fst snd state_of with_pattern count targetPositions] in *.
  pose proof (generate_loop_spec g (count ps) (count ps) t1 s1) as H2.
  destruct (generate_loop g (count ps) (seq 0 (count ps)) t1 s1) as [t2 s2].
  cbn [fst snd state_of with_pattern count targetPositions] in *.
  split; [eauto|].
  destruct H1 as (_ & Hlen1 & Hin1 & Hout1), H2 as (_ & Hlen2 & Hin2 & Hout2).
  apply list_eq. intros j.
  destruct (decide (count ps * 3 <= j)%nat) as [Hge|Hlt]; [apply Hout2, Hge|].
  destruct (decide (j < length t1)%nat) as [Hj|Hj].
  - assert (Hdm : j = ((j / 3) * 3 + j mod 3)%nat).
    { pose proof (Nat.div_mod_eq j 3). lia. }
    assert (Hm : (j mod 3 < 3)%nat) by (apply Nat.mod_upper_bound; lia).
    assert (Hd : (j / 3 < count ps)%nat) by lia.
    rewrite Hdm.
    rewrite Hin2, Hin1 by lia.
    rewrite (Hpure _ _ (rng_before _ _ _ s1)).
    rewrite (Hpure _ _ (rng_before _ _ _ s)).
    reflexivity.
  - rewrite !lookup_ge_None_2 by lia. reflexivity.
Qed.

Lemma setPattern_deterministic_idempotent_witness :
  let s := fun _ : nat => 0%R in
  let ps := fst (createParticles one_particle s) in
  let r1 := setPattern "torus" 1 ps s in
  let r2 := setPattern "torus" 2 (state_of (fst r1)) (snd r1) in
  targetPositions (state_of (fst r2)) = targetPositions (state_of (fst r1)).
Proof.
  intros s ps.
  refine (proj2 (setPattern_deterministic_idempotent "torus" 1 2 ps s _)).
  unfold deterministic_patterns. cbn [In]. do 2 right. left. reflexivity.
Defined.

(** *** A lowered particle count *)

(** X13: after [updateParticleCount(k)] a [setPattern] with a registered
    name rewrites the first [min(k, capacity)] particles only; every
    later buffer entry keeps its old target, and its source is set to
    that same value, so those particles no longer move. *)
Theorem lowered_count_freezes_tail cfg p g k now ps s :
  registered p g ->
  well_formed (particleCount cfg) ps ->
  exists ps',
    fst (setPattern p now (updateParticleCount cfg k ps) s) = Normal ps' /\
    count ps' = Nat.min k (particleCount cfg) /\
    forall j, (Nat.min k (particleCount cfg) * 3 <= j)%nat ->
      targetPositions ps' !! j = targetPositions ps !! j /\
      sourcePositions ps' !! j = targetPositions ps !! j.
Proof.
  intros Hreg (Hsrc & Htgt & Hcount).
  unfold setPattern. rewrite (registered_get_property _ _ Hreg). unfold bind, ret.
  cbn [updateParticleCount count targetPositions sourcePositions].
  pose proof (generate_loop_spec g (Nat.min k (particleCount cfg))
                (Nat.min k (particleCount cfg)) (targetPositions ps) s) as Hspec.
  destruct (generate_loop _ _ _ _ _) as [tgt s']. cbn [fst snd] in Hspec.
  destruct Hspec as (_ & _ & _ & Hout).
  eexists. split; [reflexivity|]. cbn. split; [reflexivity|].
  intros j Hj. split; [apply Hout, Hj|].
  rewrite copy_loop_copies by lia. reflexivity.
Qed.

Lemma lowered_count_freezes_tail_witness :
  let s := fun _ : nat => 0%R in
  let ps := fst (createParticles CONFIG s) in
  exists ps',
    fst (setPattern "cube" 7 (updateParticleCount CONFIG 10 ps) s) = Normal ps' /\
    count ps' = Nat.min 10 (particleCount CONFIG).
Proof.
  intros s ps.
  destruct (lowered_count_freezes_tail CONFIG "cube" cube 10 7 ps s)
    as (ps' & H1 & H2 & _).
  - unfold registered, PATTERNS. cbn [In]. right. left. reflexivity.
  - apply createParticles_well_formed.
  - exists ps'. split; [exact H1|exact H2].
Defined.

(** *** Retargeting and the morph factor *)

(** X14: a [setPattern] with a registered name restarts the morph: an
    [update] at the time of the call computes the factor 0, an [update]
    one morph duration later computes 1, and in between the factor stays
    in [0, 1]. *)
Theorem retarget_restarts_morph cfg p g now ps s gesture :
  (0 < morphSpeed cfg)%R ->
  registered p g ->
  exists ps',
    fst (setPattern p now ps s) = Normal ps' /\
    morphFactor (uniforms (update cfg gesture now ps')) = 0%R /\
    morphFactor (uniforms (update cfg gesture (now + morphSpeed cfg) ps')) = 1%R /\
    forall t, (now <= t)%R ->
      (0 <= morphFactor (uniforms (update cfg gesture t ps')) <= 1)%R.
Proof.
  intros Hd Hreg.
  assert (Hinv : (0 < / morphSpeed cfg)%R) by (apply Rinv_0_lt_compat; exact Hd).
  unfold setPattern. rewrite (registered_get_property _ _ Hreg). unfold bind, ret.
  destruct (generate_loop _ _ _ _ _) as [tgt s'].
  eexists. split; [reflexivity|]. cbn. unfold blendFactor.
  replace 1.0%R with 1%R by lra.
  split; [|split].
  - rewrite Rminus_diag. unfold Rdiv. rewrite Rmult_0_l. apply Rmin_right. lra.
  - replace (now + morphSpeed cfg - now)%R with (morphSpeed cfg) by ring.
    unfold Rdiv. rewrite Rinv_r by lra. apply Rmin_left. lra.
  - intros t Ht. split.
    + apply Rmin_glb; [lra|]. unfold Rdiv. apply Rmult_le_pos; lra.
    + apply Rmin_l.
Qed.

Lemma retarget_restarts_morph_witness :
  let s := fun _ : nat => 0%R in
  let ps := fst (createParticles one_particle s) in
  exists ps',
    fst (setPattern "cube" 7 ps s) = Normal ps' /\
    morphFactor (uniforms (update CONFIG (Gesture.getGestureState
                                            Gesture.new_GestureDetector) 7 ps')) = 0%R.
Proof.
  intros s ps.
  destruct (retarget_restarts_morph CONFIG "cube" cube 7 ps s
              (Gesture.getGestureState Gesture.new_GestureDetector))
    as (ps' & H1 & H2 & _).
  - cbn. lra.
  - unfold registered, PATTERNS. cbn [In]. right. left. reflexivity.
  - exists ps'. split; [exact H1|exact H2].
Defined.

(** *** Invariants over the life of the system *)

Lemma setPattern_well_formed capacity patternName now ps s :
  well_formed capacity ps ->
  well_formed capacity (state_of (fst (setPattern patternName now ps s))).
Proof.
  intros (Hsrc & Htgt & Hcount).
  destruct (setPattern_sizes patternName now ps s) as (E1 & E2 & E3 & _).
  unfold well_formed. rewrite E1, E2, E3. done.
Qed.

Lemma perform_well_formed cfg c ps s :
  well_formed (particleCount cfg) ps ->
  well_formed (particleCount cfg) (fst (perform cfg c ps s)).
Proof.
  intros Hwf. destruct c as [name now|newCount|gesture time]; cbn [perform].
  - unfold bind, ret.
    pose proof (setPattern_well_formed _ name now ps s Hwf) as H.
    destruct (setPattern name now ps s) as [r s']. exact H.
  - apply updateParticleCount_well_formed. exact Hwf.
  - apply update_well_formed. exact Hwf.
Qed.

Lemma perform_all_preserves (P : ParticleSystem -> Prop) (Q : call -> Prop) cfg :
  (forall c ps s, Q c -> P ps -> P (fst (perform cfg c ps s))) ->
  forall cs ps s, Forall Q cs -> P ps -> P (fst (perform_all cfg cs ps s)).
Proof.
  intros Hstep cs. induction cs as [|c cs IH]; intros ps s HQ HP; [exact HP|].
  inversion HQ as [|? ? Hc Hcs]; subst.
  cbn [perform_all]. unfold bind.
  pose proof (Hstep c ps s Hc HP) as H1.
  destruct (perform cfg c ps s) as [ps1 s1]. apply IH; assumption.
Qed.

Lemma constructor_well_formed cfg start s :
  well_formed (particleCount cfg) (state_of (fst (new_ParticleSystem cfg start s))).
Proof.
  unfold new_ParticleSystem, bind.
  pose proof (createParticles_well_formed cfg s) as H.
  destruct (createParticles cfg s) as [ps0 s0]. cbn [fst] in H.
  apply setPattern_well_formed. exact H.
Qed.

(** X15: the class invariant.  After the constructor and any sequence of
    [setPattern] (with any string, also when it ends in an exception),
    [updateParticleCount] and [update] calls, both position buffers still
    hold three numbers for each of [CONFIG.particleCount] particles and
    the particle count does not exceed [CONFIG.particleCount]. *)
Theorem buffers_never_resized cfg start cs s :
  let ps := fst (lifetime cfg start cs s) in
  length (sourcePositions ps) = (particleCount cfg * 3)%nat /\
  length (targetPositions ps) = (particleCount cfg * 3)%nat /\
  (count ps <= particleCount cfg)%nat.
Proof.
  cbv zeta. unfold lifetime, bind.
  pose proof (constructor_well_formed cfg start s) as H0.
  destruct (new_ParticleSystem cfg start s) as [r s0]. cbn [fst] in H0.
  apply (perform_all_preserves (well_formed (particleCount cfg)) (fun _ => True) cfg).
  - intros c ps s1 _. apply perform_well_formed.
  - apply Forall_forall. intros; exact I.
  - exact H0.
Qed.

Lemma coord_finite k v : finite_point v -> finite (coord k v).
Proof.
  intros (Hx & Hy & Hz). destruct k as [|[|k]]; cbn; assumption.
Qed.

Lemma generate_loop_finite p g n (tgt : list num) s :
  registered p g -> all_finite tgt ->
  all_finite (fst (generate_loop g n (seq 0 n) tgt s)).
Proof.
  intros Hreg Hfin.
  destruct (generate_loop_spec g n n tgt s) as (_ & Hlen & Hin & Hout).
  apply Forall_lookup. intros j v Hj.
  destruct (decide (n * 3 <= j)%nat) as [Hge|Hlt].
  - rewrite Hout in Hj by exact Hge.
    exact (proj1 (Forall_lookup _ _) Hfin j v Hj).
  - assert (Hjl : (j < length tgt)%nat).
    { rewrite <- Hlen. eapply lookup_lt_Some. exact Hj. }
    assert (Hdm : j = ((j / 3) * 3 + j mod 3)%nat).
    { pose proof (Nat.div_mod_eq j 3). lia. }
    assert (Hm : (j mod 3 < 3)%nat) by (apply Nat.mod_upper_bound; lia).
    assert (Hd : (j / 3 < n)%nat) by lia.
    rewrite Hdm, Hin in Hj by lia. injection Hj as <-.
    apply coord_finite. apply (PatternFacts.registered_finite p); [exact Hreg|exact Hd].
Qed.

Lemma registered_of_list p : In p PATTERN_LIST -> exists g, registered p g.
Proof.
  unfold PATTERN_LIST. intros H. apply in_map_iff in H.
  destruct H as ([p' g] & <- & Hin). exists g. exact Hin.
Qed.

Lemma perform_sound cfg c ps s :
  registered_call c -> sound (particleCount cfg) ps ->
  sound (particleCount cfg) (fst (perform cfg c ps s)).
Proof.
  intros Hc (Hwf & Hsrc & Htgt). split; [apply perform_well_formed; exact Hwf|].
  destruct c as [name now|newCount|gesture time]; cbn [perform].
  - cbn in Hc. destruct (registered_of_list _ Hc) as [g Hreg].
    unfold bind, ret, setPattern. rewrite (registered_get_property _ _ Hreg).
    unfold bind, ret.
    pose proof (generate_loop_finite name g (count ps) (targetPositions ps) s Hreg Htgt)
      as Hgen.
    destruct (generate_loop _ _ _ _ _) as [tgt s']. cbn in *.
    destruct Hwf as (Hl1 & Hl2 & _).
    rewrite copy_loop_copies by lia. split; assumption.
  - cbn. split; assumption.
  - cbn. split; assumption.
Qed.

(** X16: after the constructor and any sequence of calls in which every
    [setPattern] is given a registered name, no entry of the source or of
    the target buffer is NaN or infinite. *)
Theorem registered_calls_keep_buffers_finite cfg start cs s :
  Forall registered_call cs ->
  let ps := fst (lifetime cfg start cs s) in
  all_finite (sourcePositions ps) /\ all_finite (targetPositions ps).
Proof.
  intros Hcs. cbv zeta. unfold lifetime, bind.
  assert (H0 : sound (particleCount cfg)
                 (state_of (fst (new_ParticleSystem cfg start s)))).
  { unfold new_ParticleSystem, bind.
    pose proof (createParticles_well_formed cfg s) as Hwf.
    assert (Hz : all_finite (sourcePositions (fst (createParticles cfg s))) /\
                 all_finite (targetPositions (fst (createParticles cfg s)))).
    { cbn. split; apply Forall_replicate; unfold finite; eauto. }
    destruct (createParticles cfg s) as [ps0 s0]. cbn [fst] in Hwf, Hz.
    pose proof (perform_sound cfg (SetPattern "sphere" start) ps0 s0) as Hs.
    cbn [perform] in Hs. unfold bind, ret in Hs.
    destruct (setPattern "sphere" start ps0 s0) as [r s1]. cbn [fst] in Hs |- *.
    apply Hs.
    - cbn. left. reflexivity.
    - split; [exact Hwf|exact Hz]. }
  destruct (new_ParticleSystem cfg start s) as [r s0]. cbn [fst] in H0.
  apply (perform_all_preserves (sound (particleCount cfg)) registered_call cfg
           (perform_sound cfg) cs (state_of r) s0 Hcs H0).
Qed.

Lemma registered_calls_keep_buffers_finite_witness :
  let ps := fst (lifetime one_particle 0
                   [SetPattern "heart" 1; UpdateParticleCount 5] (fun _ => 0%R)) in
  all_finite (sourcePositions ps) /\ all_finite (targetPositions ps).
Proof.
  apply (registered_calls_keep_buffers_finite one_particle 0
           [SetPattern "heart" 1; UpdateParticleCount 5] (fun _ => 0%R)).
  constructor; [cbn; do 4 right; left; reflexivity|].
  constructor; [exact I|constructor].
Defined.

(** *** The uniforms handed to the shader *)

(** X17: for a detector state reached from the constructor (smoothing
    factor in (0, 1]) and a non-negative dispersion multiplier, [update]
    hands the shader a dispersion between minus and plus the multiplier,
    a pinch in [0, 1] and a zoom that is never negative; the tilt of the
    cloud stays within 0.1 about x and 0.05 about z. *)
Theorem update_uniforms_bounded cfg rs d time ps :
  (0 < gestureSmoothing cfg <= 1)%R ->
  (0 <= dispersionMultiplier cfg)%R ->
  Gesture.run cfg rs Gesture.new_GestureDetector = Some d ->
  let ps' := update cfg (Gesture.getGestureState d) time ps in
  (- dispersionMultiplier cfg <= dispersion (uniforms ps') <= dispersionMultiplier cfg)%R /\
  (0 <= u_pinch (uniforms ps') <= 1)%R /\
  (0 <= zoom (uniforms ps'))%R /\
  (- 0.1 <= rx (rotation ps') <= 0.1)%R /\
  (- 0.05 <= rz (rotation ps') <= 0.05)%R.
Proof.
  intros Hf Hm Hrun. cbv zeta.
  destruct (GestureFacts.run_bounded cfg rs _ d Hf
              GestureFacts.new_GestureDetector_bounded Hrun) as (Ho & Hp & _).
  destruct (GestureMore.run_handsDistance_nonneg cfg rs d Hf Hrun) as [Hd _].
  unfold Gesture.unit_interval in Ho, Hp. cbn.
  pose proof (SIN_bound (time * 0.2)) as Hs.
  pose proof (COS_bound (time * 0.15)) as Hc.
  repeat split; try lra; try nra.
  destruct (Gesture.twoHandsPresent d); lra.
Qed.

Lemma update_uniforms_bounded_witness :
  let ps := fst (createParticles one_particle (fun _ => 0%R)) in
  exists d,
    Gesture.run CONFIG [Gesture.one_hand 0.9; Gesture.no_hand]
      Gesture.new_GestureDetector = Some d /\
    (0 <= zoom (uniforms (update CONFIG (Gesture.getGestureState d) 3 ps)))%R.
Proof.
  intros ps. destruct GestureMore.sample_run as [d Hd].
  exists d. split; [exact Hd|].
  refine (proj1 (proj2 (proj2 (update_uniforms_bounded CONFIG _ d 3 ps _ _ Hd)))).
  - exact GestureFacts.CONFIG_smoothing.
  - cbn. lra.
Defined.

End ParticleMore.

(** ** Where the generated points lie *)

Module PatternGeometry.

Import Patterns PatternShape PatternFacts.
Local Open Scope R_scope.

Lemma sin_cos_square a : sin a * sin a + cos a * cos a = 1.
Proof. pose proof (sin2_cos2 a) as H. unfold Rsqr in H. exact H. Qed.

Lemma spherical_norm r a b :
  (r * cos a * sin b) * (r * cos a * sin b)
  + (r * sin a * sin b) * (r * sin a * sin b)
  + (r * cos b) * (r * cos b) = r * r.
Proof.
  pose proof (sin_cos_square a) as Ha. pose proof (sin_cos_square b) as Hb.
  replace (_ + _ + _)
    with (r * r * (sin b * sin b * (sin a * sin a + cos a * cos a) + cos b * cos b))
    by ring.
  rewrite Ha, Rmult_1_r, Hb. ring.
Qed.

Ltac shape g :=
  unfold g; cbv zeta; draw; unfold coords; cbn [vx vy vz fst]; evaluate.

(** X18: every point of [sphere] lies on the sphere of radius 5 about the
    origin. *)
Theorem sphere_radius_5 i total s :
  (i < total)%nat ->
  exists x y z, coords (fst (sphere i total s)) = Some (x, y, z) /\
    x * x + y * y + z * z = 25.
Proof.
  intros Hi. assert (Htotal : 0 < INR total) by (apply lt_0_INR; lia).
  shape sphere. do 3 eexists. split; [reflexivity|].
  rewrite spherical_norm. lra.
Qed.

Lemma sphere_radius_5_witness :
  exists x y z, coords (fst (sphere 1%nat 2%nat (fun _ => 0))) = Some (x, y, z) /\
    x * x + y * y + z * z = 25.
Proof. apply (sphere_radius_5 1 2 (fun _ => 0)). lia. Defined.

(** X19: every point of [explosion] lies at a distance of at least 2 and
    less than 7 from the origin, its radius being 2 plus five times the
    random draw. *)
Theorem explosion_shell i total s :
  (i < total)%nat -> unit_stream s ->
  exists x y z, coords (fst (explosion i total s)) = Some (x, y, z) /\
    x * x + y * y + z * z = (2 + s 0%nat * 5) * (2 + s 0%nat * 5) /\
    4 <= x * x + y * y + z * z < 49.
Proof.
  intros Hi Hs. assert (Htotal : 0 < INR total) by (apply lt_0_INR; lia).
  shape explosion. do 3 eexists. split; [reflexivity|].
  rewrite spherical_norm. split; [reflexivity|].
  specialize (Hs 0%nat). nra.
Qed.

Lemma explosion_shell_witness :
  exists x y z, coords (fst (explosion 1%nat 2%nat (fun _ => 0.5))) = Some (x, y, z) /\
    x * x + y * y + z * z = (2 + 0.5 * 5) * (2 + 0.5 * 5) /\
    4 <= x * x + y * y + z * z < 49.
Proof.
  apply (explosion_shell 1 2 (fun _ => 0.5)); [lia|].
  intros n. lra.
Defined.

(** X20: every point of [torus] satisfies the equation of the torus with
    major radius 4 and minor radius 1.5 about the z axis. *)
Theorem torus_surface i total s :
  (i < total)%nat ->
  exists x y z, coords (fst (torus i total s)) = Some (x, y, z) /\
    (x * x + y * y + z * z + 4 * 4 - 1.5 * 1.5) ^ 2 = 4 * (4 * 4) * (x * x + y * y) /\
    Rabs z <= 1.5.
Proof.
  intros Hi. assert (Htotal : 0 < INR total) by (apply lt_0_INR; lia).
  shape torus. do 3 eexists. split; [reflexivity|].
  match goal with |- context [(4 + 1.5 * cos ?v) * cos ?u] =>
    pose proof (sin_cos_square u) as Hu; pose proof (sin_cos_square v) as Hv;
    pose proof (SIN_bound v) as Hb;
    generalize dependent (sin u); generalize dependent (cos u);
    generalize dependent (sin v); generalize dependent (cos v)
  end.
  intros cv sv Hv Hb cu su Hu. split.
  - replace ((4 + 1.5 * cv) * cu * ((4 + 1.5 * cv) * cu)
             + (4 + 1.5 * cv) * su * ((4 + 1.5 * cv) * su))
      with ((4 + 1.5 * cv) * (4 + 1.5 * cv) * (su * su + cu * cu)) by ring.
    rewrite Hu. replace (1.5 * sv * (1.5 * sv)) with (1.5 * 1.5 * (1 - cv * cv)) by nra.
    ring.
  - apply Rabs_le. nra.
Qed.

Lemma torus_surface_witness :
  exists x y z, coords (fst (torus 1%nat 2%nat (fun _ => 0))) = Some (x, y, z) /\
    (x * x + y * y + z * z + 4 * 4 - 1.5 * 1.5) ^ 2 = 4 * (4 * 4) * (x * x + y * y) /\
    Rabs z <= 1.5.
Proof. apply (torus_surface 1 2 (fun _ => 0)). lia. Defined.

(** X21: every point of [cone] lies on the cone with apex (0, 5, 0) whose
    radius grows by 0.4 per unit of height lost, between the heights -5
    and 5. *)
Theorem cone_surface i total s :
  (i < total)%nat ->
  exists x y z, coords (fst (cone i total s)) = Some (x, y, z) /\
    x * x + z * z = (0.4 * (5 - y)) * (0.4 * (5 - y)) /\
    -5 <= y < 5.
Proof.
  intros Hi. assert (Htotal : 0 < INR total) by (apply lt_0_INR; lia).
  shape cone. do 3 eexists. split; [reflexivity|].
  pose proof (lattice_argument_range i total Hi) as Hr.
  assert (Ht : 0 <= INR i / INR total < 1).
  { unfold Rdiv in *. rewrite Rmult_assoc in Hr.
    split; [lra|].
    assert (Hlt : INR i < INR total) by (apply lt_INR; exact Hi).
    apply (Rmult_lt_reg_r (INR total)); [exact Htotal|].
    rewrite Rmult_assoc, Rinv_l by lra. lra. }
  clear Hr. generalize dependent (INR i / INR total). intros t Ht.
  match goal with |- context [cos ?a] =>
    pose proof (sin_cos_square a) as Ha;
    generalize dependent (sin a); generalize dependent (cos a)
  end.
  intros c sn Ha. split; [|lra].
  replace ((1 - t) * 4 * c * ((1 - t) * 4 * c) + (1 - t) * 4 * sn * ((1 - t) * 4 * sn))
    with ((1 - t) * 4 * ((1 - t) * 4) * (sn * sn + c * c)) by ring.
  rewrite Ha. replace 0.4 with (4 / 10) by lra. field.
Qed.

Lemma cone_surface_witness :
  exists x y z, coords (fst (cone 1%nat 2%nat (fun _ => 0))) = Some (x, y, z) /\
    x * x + z * z = (0.4 * (5 - y)) * (0.4 * (5 - y)) /\
    -5 <= y < 5.
Proof. apply (cone_surface 1 2 (fun _ => 0)). lia. Defined.

(** *** Remainders, floors and roots *)

Lemma remainder_range x y :
  0 <= x -> 0 < y -> 0 <= x - y * IZR (Rtrunc (x / y)) < y.
Proof.
  intros Hx Hy.
  assert (Hq : 0 <= x / y).
  { unfold Rdiv. apply Rmult_le_pos; [exact Hx|]. left. apply Rinv_0_lt_compat, Hy. }
  unfold Rtrunc. destruct (Rle_dec 0 (x / y)) as [_|Hn]; [|contradiction].
  destruct (base_Int_part (x / y)) as [Hlo Hhi].
  assert (Hxy : x / y * y = x) by (field; lra).
  split; nra.
Qed.

Lemma floor_range r : 0 <= r -> 0 <= IZR (Int_part r) <= r.
Proof.
  intros Hr. destruct (base_Int_part r) as [Hlo Hhi]. split; [|exact Hlo].
  assert (Hm : IZR (-1) < IZR (Int_part r)) by lra.
  apply lt_IZR in Hm. apply IZR_le. lia.
Qed.

Lemma cbrt_cube x : 0 < x -> cbrt x * cbrt x * cbrt x = x.
Proof.
  intros Hx. unfold cbrt. destruct (Rlt_dec 0 x); [|contradiction].
  rewrite <- !Rpower_plus. replace (/ 3 + / 3 + / 3) with 1 by lra.
  apply Rpower_1, Hx.
Qed.

Lemma index_fraction i total :
  (i < total)%nat -> 0 <= INR i / INR total < 1.
Proof.
  intros Hi.
  assert (Hlt : INR i < INR total) by (apply lt_INR; exact Hi).
  pose proof (pos_INR i) as Hpos.
  assert (Hinv : 0 < / INR total) by (apply Rinv_0_lt_compat; lra).
  split.
  - unfold Rdiv. apply Rmult_le_pos; lra.
  - apply (Rmult_lt_reg_r (INR total)); [lra|].
    unfold Rdiv. rewrite Rmult_assoc, Rinv_l by lra. lra.
Qed.

(** A remainder divided by its divisor is a fraction in [0, 1). *)
Lemma remainder_fraction x y :
  0 <= x -> 0 < y -> 0 <= (x - y * IZR (Rtrunc (x / y))) / y < 1.
Proof.
  intros Hx Hy. destruct (remainder_range x y Hx Hy) as [Hlo Hhi].
  assert (Hinv : 0 < / y) by (apply Rinv_0_lt_compat; exact Hy).
  split.
  - unfold Rdiv. apply Rmult_le_pos; lra.
  - apply (Rmult_lt_reg_r y); [exact Hy|].
    unfold Rdiv. rewrite Rmult_assoc, Rinv_l by lra. lra.
Qed.

(** X22: every point of [cylinder] lies on the cylinder of radius 3 about
    the y axis, at a height from -5 up to but not including 5. *)
Theorem cylinder_surface i total s :
  (i < total)%nat ->
  exists x y z, coords (fst (cylinder i total s)) = Some (x, y, z) /\
    x * x + z * z = 9 /\ -5 <= y < 5.
Proof.
  intros Hi. assert (Htotal : 0 < INR total) by (apply lt_0_INR; lia).
  shape cylinder. do 3 eexists. split; [reflexivity|].
  assert (Hx : 0 <= INR i * 17) by (pose proof (pos_INR i); lra).
  pose proof (remainder_fraction (INR i * 17) (INR total) Hx Htotal) as Hq.
  generalize dependent ((INR i * 17 - INR total * IZR (Rtrunc (INR i * 17 / INR total)))
                        / INR total).
  intros q Hq.
  match goal with |- context [cos ?a] =>
    pose proof (sin_cos_square a) as Ha;
    generalize dependent (sin a); generalize dependent (cos a)
  end.
  intros c sn Ha. split; [nra|lra].
Qed.

Lemma cylinder_surface_witness :
  exists x y z, coords (fst (cylinder 1%nat 2%nat (fun _ => 0))) = Some (x, y, z) /\
    x * x + z * z = 9 /\ -5 <= y < 5.
Proof. apply (cylinder_surface 1 2 (fun _ => 0)). lia. Defined.

(** X23: every point of [cube] lies in the box from -4 up to but not
    including 4 on each axis. *)
Theorem cube_in_box i total s :
  (i < total)%nat ->
  exists x y z, coords (fst (cube i total s)) = Some (x, y, z) /\
    -4 <= x < 4 /\ -4 <= y < 4 /\ -4 <= z < 4.
Proof.
  intros Hi. assert (Htotal : 0 < INR total) by (apply lt_0_INR; lia).
  shape cube. do 3 eexists. split; [reflexivity|].
  pose proof (cbrt_pos (INR total) Htotal) as Hp.
  pose proof (cbrt_cube (INR total) Htotal) as Hcube.
  pose proof (pos_INR i) as Hi0.
  assert (Hlt : INR i < INR total) by (apply lt_INR; exact Hi).
  set (p := cbrt (INR total)) in *.
  assert (Hinv : 0 < / p) by (apply Rinv_0_lt_compat; exact Hp).
  pose proof (remainder_fraction (INR i) p Hi0 Hp) as Hx.
  assert (Hrow : 0 <= INR i / p) by (unfold Rdiv; apply Rmult_le_pos; lra).
  destruct (floor_range _ Hrow) as [Hf0 Hf1].
  pose proof (remainder_fraction _ p Hf0 Hp) as Hy.
  assert (Hpp : 0 < p * p) by nra.
  assert (Hlayer : 0 <= INR i / (p * p)).
  { unfold Rdiv. apply Rmult_le_pos; [lra|]. left. apply Rinv_0_lt_compat, Hpp. }
  destruct (floor_range _ Hlayer) as [Hl0 Hl1].
  assert (Hz : 0 <= IZR (Int_part (INR i / (p * p))) / p < 1).
  { split.
    - unfold Rdiv. apply Rmult_le_pos; lra.
    - apply (Rmult_lt_reg_r p); [exact Hp|].
      unfold Rdiv at 1. rewrite Rmult_assoc, Rinv_l by lra.
      assert (Hq : INR i / (p * p) * (p * p) = INR i) by (field; lra).
      nra. }
  generalize dependent ((INR i - p * IZR (Rtrunc (INR i / p))) / p).
  intros qx Hqx.
  generalize dependent
    ((IZR (Int_part (INR i / p)) - p * IZR (Rtrunc (IZR (Int_part (INR i / p)) / p))) / p).
  intros qy Hqy.
  generalize dependent (IZR (Int_part (INR i / (p * p))) / p).
  intros qz Hqz.
  repeat split; lra.
Qed.

Lemma cube_in_box_witness :
  exists x y z, coords (fst (cube 1%nat 2%nat (fun _ => 0))) = Some (x, y, z) /\
    -4 <= x < 4 /\ -4 <= y < 4 /\ -4 <= z < 4.
Proof. apply (cube_in_box 1 2 (fun _ => 0)). lia. Defined.

Lemma grid_coordinates i total :
  (i < total)%nat -> 0 < INR total ->
  let g := sqrt (INR total) in
  0 <= (INR i - g * IZR (Rtrunc (INR i / g))) / g < 1 /\
  0 <= IZR (Int_part (INR i / g)) / g < 1.
Proof.
  intros Hi Htotal g.
  assert (Hg : 0 < g) by (apply sqrt_lt_R0; exact Htotal).
  assert (Hgg : g * g = INR total) by (apply sqrt_sqrt; lra).
  pose proof (pos_INR i) as Hi0.
  assert (Hlt : INR i < INR total) by (apply lt_INR; exact Hi).
  assert (Hinv : 0 < / g) by (apply Rinv_0_lt_compat; exact Hg).
  split; [apply remainder_fraction; assumption|].
  assert (Hrow : 0 <= INR i / g) by (unfold Rdiv; apply Rmult_le_pos; lra).
  destruct (floor_range _ Hrow) as [Hf0 Hf1].
  split.
  - unfold Rdiv. apply Rmult_le_pos; lra.
  - apply (Rmult_lt_reg_r g); [exact Hg|].
    unfold Rdiv at 1. rewrite Rmult_assoc, Rinv_l by lra.
    assert (Hq : INR i / g * g = INR i) by (field; lra).
    nra.
Qed.

(** X24: [wave] and [ripple] lay the particles on a square grid over
    x and z from -8 up to but not including 8; the height is at most 3
    in absolute value for [wave] and at most 2 for [ripple]. *)
Theorem grid_patterns_bounded i total s :
  (i < total)%nat ->
  (exists x y z, coords (fst (wave i total s)) = Some (x, y, z) /\
     -8 <= x < 8 /\ -8 <= z < 8 /\ -3 <= y <= 3) /\
  (exists x y z, coords (fst (ripple i total s)) = Some (x, y, z) /\
     -8 <= x < 8 /\ -8 <= z < 8 /\ -2 <= y <= 2).
Proof.
  intros Hi. assert (Htotal : 0 < INR total) by (apply lt_0_INR; lia).
  destruct (grid_coordinates i total Hi Htotal) as [Hx Hz]. cbv zeta in Hx, Hz.
  split.
  - shape wave. do 3 eexists. split; [reflexivity|].
    generalize dependent
      ((INR i - sqrt (INR total) * IZR (Rtrunc (INR i / sqrt (INR total))))
       / sqrt (INR total)).
    intros qx Hqx.
    generalize dependent (IZR (Int_part (INR i / sqrt (INR total))) / sqrt (INR total)).
    intros qz Hqz.
    pose proof (SIN_bound ((qx * 16 - 8) * 0.5)) as Hs.
    pose proof (COS_bound ((qz * 16 - 8) * 0.5)) as Hc.
    repeat split; try lra; nra.
  - shape ripple. do 3 eexists. split; [reflexivity|].
    generalize dependent
      ((INR i - sqrt (INR total) * IZR (Rtrunc (INR i / sqrt (INR total))))
       / sqrt (INR total)).
    intros qx Hqx.
    generalize dependent (IZR (Int_part (INR i / sqrt (INR total))) / sqrt (INR total)).
    intros qz Hqz.
    set (dist := sqrt ((qx * 16 - 8) * (qx * 16 - 8) + (qz * 16 - 8) * (qz * 16 - 8))).
    assert (Hd : 0 <= dist) by apply sqrt_pos.
    pose proof (SIN_bound (dist * 1.5)) as Hs.
    assert (He : 0 < exp (- dist * 0.1) <= 1).
    { split; [apply exp_pos|].
      destruct (Req_dec dist 0) as [->|Hne].
      - replace (- 0 * 0.1) with 0 by lra. rewrite exp_0. lra.
      - left. rewrite <- exp_0. apply exp_increasing. lra. }
    repeat split; try lra; nra.
Qed.

Lemma grid_patterns_bounded_witness :
  exists x y z, coords (fst (wave 1%nat 2%nat (fun _ => 0))) = Some (x, y, z) /\
    -8 <= x < 8 /\ -8 <= z < 8 /\ -3 <= y <= 3.
Proof. apply (grid_patterns_bounded 1 2 (fun _ => 0)). lia. Defined.

(** X25: every point of [cloud] lies around the centre that its index
    selects, [centers[floor(i / (total / 5))]]: within 1.25 of it along
    x and z and within 0.625 along y. *)
Theorem cloud_around_centre i total s :
  (i < total)%nat -> unit_stream s ->
  exists c p,
    array_get centers (Math_floor (Some (INR i) / (Some (INR total) / Some 5))%num)
      = Some c /\
    coords (fst (cloud i total s)) = Some p /\
    within_box c 1.25 0.625 1.25 p.
Proof.
  intros Hi Hs. assert (Htotal : 0 < INR total) by (apply lt_0_INR; lia).
  destruct (cloud_cluster_in_bounds i total Hi Htotal) as [c Hc].
  exists c.
  assert (Hfin : exists a b c', cx c = Some a /\ cy c = Some b /\ cz c = Some c').
  { pose proof (center_finite
                  (Math_floor (Some (INR i) / (Some (INR total) / Some 5))%num)) as H.
    cbv zeta in H. rewrite Hc in H. exact H. }
  destruct Hfin as (a & b & c' & Ha & Hb & Hc').
  unfold cloud. cbv zeta. rewrite Hc. cbn [or_else].
  draw. unfold coords. cbn [vx vy vz fst]. rewrite Ha, Hb, Hc'. evaluate.
  eexists. split; [reflexivity|]. split; [reflexivity|].
  unfold within_box. exists a, b, c'.
  pose proof (Hs 0%nat) as H0. pose proof (Hs 1%nat) as H1. pose proof (Hs 2%nat) as H2.
  repeat split; try assumption; apply Rabs_le; lra.
Qed.

Lemma half_stream : unit_stream (fun _ => 0.5).
Proof. intros n. lra. Defined.

Lemma cloud_around_centre_witness :
  exists c p,
    array_get centers (Math_floor (Some (INR 1) / (Some (INR 2) / Some 5))%num) = Some c /\
    coords (fst (cloud 1%nat 2%nat (fun _ => 0.5))) = Some p /\
    within_box c 1.25 0.625 1.25 p.
Proof. apply (cloud_around_centre 1 2 (fun _ => 0.5)); [lia|exact half_stream]. Defined.

(** X26: [atom] puts the particles whose index is below a tenth of the
    count in a nucleus, within 0.75 of the origin along each axis, and
    all the others on the sphere of radius 4. *)
Theorem atom_nucleus_and_orbits i total s :
  (i < total)%nat -> unit_stream s ->
  exists x y z, coords (fst (atom i total s)) = Some (x, y, z) /\
    ((INR i < INR total * 0.1 /\
      Rabs x <= 0.75 /\ Rabs y <= 0.75 /\ Rabs z <= 0.75) \/
     (~ INR i < INR total * 0.1 /\ x * x + y * y + z * z = 16)).
Proof.
  intros Hi Hs. assert (Htotal : 0 < INR total) by (apply lt_0_INR; lia).
  unfold atom. cbv zeta. evaluate. unfold nlt.
  destruct (Rlt_dec (INR i) (INR total * 0.1)) as [Hnuc|Horb].
  - draw. unfold coords. cbn [vx vy vz fst]. evaluate.
    do 3 eexists. split; [reflexivity|]. left. split; [exact Hnuc|].
    pose proof (Hs 0%nat) as H0. pose proof (Hs 1%nat) as H1. pose proof (Hs 2%nat) as H2.
    repeat split; apply Rabs_le; lra.
  - draw. unfold coords. cbn [vx vy vz fst]. evaluate.
    do 3 eexists. split; [reflexivity|]. right. split; [exact Horb|].
    match goal with |- context [4 * sin ?a * cos ?t] =>
      pose proof (sin_cos_square a) as Ha; pose proof (sin_cos_square t) as Ht;
      generalize dependent (sin a); generalize dependent (cos a);
      generalize dependent (sin t); generalize dependent (cos t)
    end.
    intros ct st Ht ca sa Ha.
    replace (4 * ca * (4 * ca) + 4 * sa * ct * (4 * sa * ct) + 4 * sa * st * (4 * sa * st))
      with (16 * (ca * ca + sa * sa * (st * st + ct * ct))) by ring.
    rewrite Ht. nra.
Qed.

Lemma atom_nucleus_and_orbits_witness :
  exists x y z, coords (fst (atom 1%nat 2%nat (fun _ => 0.5))) = Some (x, y, z) /\
    ((INR 1 < INR 2 * 0.1 /\
      Rabs x <= 0.75 /\ Rabs y <= 0.75 /\ Rabs z <= 0.75) \/
     (~ INR 1 < INR 2 * 0.1 /\ x * x + y * y + z * z = 16)).
Proof.
  apply (atom_nucleus_and_orbits 1 2 (fun _ => 0.5)); [lia|exact half_stream].
Defined.

End PatternGeometry.

(** ** The application glue *)

Module AppFacts.

Import Patterns Particles App ParticleFacts.
Local Open Scope Z_scope.

Lemma toggle_from_length k j bs : length (toggle_from k j bs) = length bs.
Proof.
  revert k. induction bs as [|b bs IH]; intros k; cbn; [reflexivity|].
  rewrite IH. reflexivity.
Qed.

Lemma toggle_from_lookup k j bs (i : nat) :
  toggle_from k j bs !! i =
  (fun b => {| pattern := pattern b; active := Z.of_nat (k + i) =? j |}) <$> bs !! i.
Proof.
  revert k i. induction bs as [|b bs IH]; intros k i; [reflexivity|].
  destruct i as [|i]; cbn.
  - rewrite Nat.add_0_r. reflexivity.
  - rewrite IH. replace (S k + i)%nat with (k + S i)%nat by lia. reflexivity.
Qed.

Lemma findIndex_from_toggle k j bs :
  Z.of_nat k <= j < Z.of_nat k + Z.of_nat (length bs) ->
  findIndex_from k (toggle_from k j bs) = j.
Proof.
  revert k. induction bs as [|b bs IH]; intros k Hj; cbn in *; [lia|].
  destruct (Z.eqb_spec (Z.of_nat k) j) as [E|E]; [exact E|].
  apply IH. lia.
Qed.

Lemma findIndex_from_range k bs :
  findIndex_from k bs = -1 \/
  Z.of_nat k <= findIndex_from k bs < Z.of_nat k + Z.of_nat (length bs).
Proof.
  revert k. induction bs as [|b bs IH]; intros k; cbn; [left; reflexivity|].
  destruct (active b); [right; lia|].
  destruct (IH (S k)) as [H|H]; [left; exact H|right; lia].
Qed.

Lemma next_index_range direction a n :
  0 < n -> -1 <= a < n -> 0 <= next_index direction a n < n.
Proof.
  intros Hn Ha. unfold next_index. destruct direction.
  - destruct (Z.eq_dec (a - 1 + n) (-1)) as [E|E].
    + assert (n = 1) by lia. subst n. rewrite Z.rem_1_r. lia.
    + apply Z.rem_bound_pos; lia.
  - apply Z.rem_bound_pos; lia.
Qed.

Lemma registered_button bs (j : nat) b :
  buttons_registered bs -> bs !! j = Some b ->
  exists p g, pattern b = Some p /\ registered p g.
Proof.
  intros Hreg Hb.
  destruct (proj1 (Forall_lookup _ _) Hreg j b Hb) as (p & Hp & Hin).
  unfold PATTERN_LIST in Hin. apply in_map_iff in Hin.
  destruct Hin as ([p' g] & <- & Hin). exists p', g. split; [exact Hp|exact Hin].
Qed.

(** What a handled swipe does. *)
Lemma swipeTimer_handled d dateNow perfNow app s direction :
  Gesture.swipeDirection d = Some direction ->
  500 < dateNow - lastSwipeTime app ->
  buttons app <> [] ->
  buttons_registered (buttons app) ->
  let n := Z.of_nat (length (buttons app)) in
  let j := next_index direction (findIndex_active (buttons app)) n in
  exists b p ps',
    fst (swipeTimer d dateNow perfNow app s)
      = Normal (with_system app (toggle_from 0 j (buttons app)) dateNow ps') /\
    0 <= j < n /\
    buttons app !! Z.to_nat j = Some b /\
    pattern b = Some p /\
    currentPattern ps' = p /\
    count ps' = count (particleSystem app).
Proof.
  intros Hswipe Htime Hne Hreg n j.
  assert (Hn : 0 < n).
  { unfold n. destruct (buttons app); [contradiction|]. cbn [length]. lia. }
  assert (Ha : -1 <= findIndex_active (buttons app) < n).
  { unfold findIndex_active, n.
    destruct (findIndex_from_range 0 (buttons app)) as [->|H]; lia. }
  pose proof (next_index_range direction _ n Hn Ha) as Hj. fold j in Hj.
  assert (Hlt : (Z.to_nat j < length (buttons app))%nat) by (unfold n in Hj; lia).
  destruct (lookup_lt_is_Some_2 _ _ Hlt) as [b Hb].
  destruct (registered_button _ _ _ Hreg Hb) as (p & g & Hp & Hg).
  unfold swipeTimer. cbn [Gesture.getGestureState Gesture.swipe]. rewrite Hswipe.
  destruct (Z.ltb_spec 500 (dateNow - lastSwipeTime app)) as [_|Hle]; [|lia].
  assert (Hnew : match direction with
                 | Gesture.SwipeRight =>
                     int_rem (findIndex_active (buttons app) + 1) n
                 | Gesture.SwipeLeft =>
                     int_rem (findIndex_active (buttons app) - 1 + n) n
                 end = Some j).
  { unfold int_rem, j, next_index.
    destruct (Z.eqb_spec n 0) as [E|_]; [lia|]. destruct direction; reflexivity. }
  cbv zeta. fold n. rewrite Hnew.
  unfold button_at. destruct (Z.leb_spec 0 j) as [_|Hneg]; [|lia].
  rewrite toggle_from_lookup, Hb. cbn [fmap option_fmap option_map pattern].
  rewrite Hp. cbn [from_option Datatypes.id].
  unfold bind, ret, setPattern. rewrite (registered_get_property _ _ Hg).
  unfold bind, ret.
  destruct (generate_loop _ _ _ _ _) as [tgt s'].
  exists b, p. eexists. cbn. split; [reflexivity|]. done.
Qed.

(** X27: a swipe that the timer handles (more than 500 ms after the last
    one, with at least one button, all carrying registered names) moves
    the selection from the active index [k] (-1 when no button is
    active) to [(k + 1) mod n] for a right swipe and to [(k - 1) mod n]
    for a left swipe, leaves exactly the new button active, passes that
    button's pattern to [setPattern], which takes it, and records the
    time; so with no button active a right swipe selects the first
    button, and a left swipe the last but one, or the only button when
    there is just one. *)
Theorem swipe_cycles_buttons d dateNow perfNow app s direction :
  Gesture.swipeDirection d = Some direction ->
  500 < dateNow - lastSwipeTime app ->
  buttons app <> [] ->
  buttons_registered (buttons app) ->
  let n := Z.of_nat (length (buttons app)) in
  let k := findIndex_active (buttons app) in
  let j := next_index direction k n in
  exists b p app',
    fst (swipeTimer d dateNow perfNow app s) = Normal app' /\
    0 <= j < n /\
    buttons app !! Z.to_nat j = Some b /\ pattern b = Some p /\
    currentPattern (particleSystem app') = p /\
    lastSwipeTime app' = dateNow /\
    findIndex_active (buttons app') = j /\
    (forall (i : nat) b', buttons app' !! i = Some b' ->
       (active b' = true <-> Z.of_nat i = j)) /\
    (direction = Gesture.SwipeRight -> j = (k + 1) mod n) /\
    (direction = Gesture.SwipeLeft -> j = (k - 1) mod n) /\
    (k = -1 -> direction = Gesture.SwipeRight -> j = 0) /\
    (k = -1 -> direction = Gesture.SwipeLeft -> j = if n =? 1 then 0 else n - 2).
Proof.
  intros Hswipe Htime Hne Hreg n k j.
  destruct (swipeTimer_handled d dateNow perfNow app s direction Hswipe Htime Hne Hreg)
    as (b & p & ps' & Hrun & Hj & Hb & Hp & Hcur & _).
  fold n k j in Hrun, Hj, Hb.
  exists b, p. eexists. split; [exact Hrun|]. cbn.
  split; [exact Hj|]. split; [exact Hb|]. split; [exact Hp|]. split; [exact Hcur|].
  split; [reflexivity|].
  split; [apply findIndex_from_toggle; fold n; lia|].
  split.
  { intros i b' Hi. rewrite toggle_from_lookup in Hi.
    destruct (buttons app !! i) as [b0|]; [|discriminate Hi].
    cbn in Hi. injection Hi as <-. cbn. apply Z.eqb_eq. }
  assert (Hn : 0 < n) by lia.
  assert (Hk : -1 <= k < n).
  { unfold k, findIndex_active, n.
    destruct (findIndex_from_range 0 (buttons app)) as [->|H]; lia. }
  unfold j, next_index.
  split; [|split; [|split]].
  - intros ->. apply Z.rem_mod_nonneg; lia.
  - intros ->.
    destruct (Z.eq_dec (k - 1 + n) (-1)) as [E|E].
    + assert (Hn1 : n = 1) by lia. rewrite Hn1, Z.rem_1_r, Z.mod_1_r. reflexivity.
    + rewrite Z.rem_mod_nonneg by lia.
      replace (k - 1 + n) with (k - 1 + 1 * n) by lia.
      apply Z_mod_plus_full.
  - intros -> ->. replace (-1 + 1) with 0 by lia. apply Z.rem_0_l. lia.
  - intros -> ->. replace (-1 - 1 + n) with (n - 2) by lia.
    destruct (Z.eqb_spec n 1) as [Hn1|Hn1]; [rewrite Hn1; reflexivity|].
    apply Z.rem_small. lia.
Qed.

(** Three buttons, the first one active, and a system to go with them. *)
Lemma sample_buttons_registered :
  buttons_registered
    [ {| pattern := Some "sphere"%string; active := true |};
      {| pattern := Some "cube"%string; active := false |};
      {| pattern := Some "torus"%string; active := false |} ].
Proof.
  repeat constructor; eexists; (split; [reflexivity|]); cbn; tauto.
Defined.

Lemma swipe_cycles_buttons_witness :
  let d := Gesture.detectSwipe 0.9 Gesture.new_GestureDetector in
  let app := {| buttons :=
                  [ {| pattern := Some "sphere"%string; active := true |};
                    {| pattern := Some "cube"%string; active := false |};
                    {| pattern := Some "torus"%string; active := false |} ];
                lastSwipeTime := 0;
                particleSystem := fst (createParticles one_particle (fun _ => 0%R)) |} in
  exists app',
    fst (swipeTimer d 1000 1 app (fun _ => 0%R)) = Normal app' /\
    currentPattern (particleSystem app') = "cube"%string /\
    findIndex_active (buttons app') = 1.
Proof.
  intros d app.
  assert (Hd : Gesture.swipeDirection d = Some Gesture.SwipeRight).
  { unfold d. rewrite GestureFacts.detectSwipe_swipe. cbn.
    destruct (Rlt_dec 0.15 (Rabs (0.9 - 0.5))) as [_|Hn].
    - destruct (Rlt_dec 0 (0.9 - 0.5)) as [_|Hn]; [reflexivity|exfalso; apply Hn; lra].
    - exfalso. apply Hn. rewrite Rabs_right; lra. }
  destruct (swipe_cycles_buttons d 1000 1%R app (fun _ => 0%R) Gesture.SwipeRight Hd)
    as (b & p & app' & Hrun & _ & Hb & Hp & Hcur & _ & Hidx & _).
  - cbn. lia.
  - discriminate.
  - exact sample_buttons_registered.
  - exists app'. split; [exact Hrun|]. split; [|exact Hidx].
    cbn in Hb. injection Hb as <-. cbn in Hp. injection Hp as <-. exact Hcur.
Defined.

(** X28: the timer does nothing, and in particular calls no [setPattern],
    when there is no swipe or when at most 500 ms have passed since the
    last handled swipe; so after a handled swipe every tick of the next
    500 ms leaves the buttons and the particle system alone, whatever
    the detector reports. *)
Theorem swipe_debounced :
  (forall d dateNow perfNow app s,
     Gesture.swipeDirection d = None \/ dateNow - lastSwipeTime app <= 500 ->
     swipeTimer d dateNow perfNow app s = (Normal app, s)) /\
  (forall d dateNow perfNow app s direction d2 dateNow2 perfNow2,
     Gesture.swipeDirection d = Some direction ->
     500 < dateNow - lastSwipeTime app ->
     buttons app <> [] ->
     buttons_registered (buttons app) ->
     dateNow2 - dateNow <= 500 ->
     let r1 := swipeTimer d dateNow perfNow app s in
     swipeTimer d2 dateNow2 perfNow2 (state_of (fst r1)) (snd r1)
       = (Normal (state_of (fst r1)), snd r1)).
Proof.
  assert (Hidle : forall d dateNow perfNow app s,
            Gesture.swipeDirection d = None \/ dateNow - lastSwipeTime app <= 500 ->
            swipeTimer d dateNow perfNow app s = (Normal app, s)).
  { intros d dateNow perfNow app s H. unfold swipeTimer.
    cbn [Gesture.getGestureState Gesture.swipe].
    destruct (Gesture.swipeDirection d) as [dir|]; [|reflexivity].
    destruct H as [H|H]; [discriminate H|].
    destruct (Z.ltb_spec 500 (dateNow - lastSwipeTime app)); [lia|reflexivity]. }
  split; [exact Hidle|].
  intros d dateNow perfNow app s direction d2 dateNow2 perfNow2 Hs Ht Hne Hreg Hsoon r1.
  destruct (swipeTimer_handled d dateNow perfNow app s direction Hs Ht Hne Hreg)
    as (b & p & ps' & Hrun & _).
  apply Hidle. right. unfold r1. rewrite Hrun. cbn. lia.
Qed.

Lemma swipe_debounced_witness :
  let d := Gesture.detectSwipe 0.9 Gesture.new_GestureDetector in
  let app := {| buttons :=
                  [ {| pattern := Some "sphere"%string; active := true |};
                    {| pattern := Some "cube"%string; active := false |};
                    {| pattern := Some "torus"%string; active := false |} ];
                lastSwipeTime := 900;
                particleSystem := fst (createParticles one_particle (fun _ => 0%R)) |} in
  swipeTimer d 1000 1 app (fun _ => 0%R) = (Normal app, fun _ => 0%R).
Proof.
  intros d app.
  apply (proj1 swipe_debounced d 1000 1%R app (fun _ => 0%R)).
  right. cbn. lia.
Defined.

Lemma toggle_from_registered k j bs :
  buttons_registered bs -> buttons_registered (toggle_from k j bs).
Proof.
  unfold buttons_registered. intros H. revert k.
  induction H as [|b bs Hb _ IH]; intros k; cbn; constructor; [exact Hb|apply IH].
Qed.

(** X29: a swipe to the right followed, more than 500 ms later, by a
    swipe to the left brings the selection back to the button it started
    from, and [setPattern] is last called with that button's pattern. *)
Theorem swipe_right_then_left d1 d2 t1 t2 perf1 perf2 app s :
  Gesture.swipeDirection d1 = Some Gesture.SwipeRight ->
  Gesture.swipeDirection d2 = Some Gesture.SwipeLeft ->
  500 < t1 - lastSwipeTime app -> 500 < t2 - t1 ->
  buttons_registered (buttons app) ->
  0 <= findIndex_active (buttons app) ->
  let r1 := swipeTimer d1 t1 perf1 app s in
  let r2 := swipeTimer d2 t2 perf2 (state_of (fst r1)) (snd r1) in
  exists app2 b p,
    fst r2 = Normal app2 /\
    findIndex_active (buttons app2) = findIndex_active (buttons app) /\
    buttons app !! Z.to_nat (findIndex_active (buttons app)) = Some b /\
    pattern b = Some p /\
    currentPattern (particleSystem app2) = p.
Proof.
  intros Hs1 Hs2 Ht1 Ht2 Hreg Hk r1 r2.
  set (n := Z.of_nat (length (buttons app))).
  set (k := findIndex_active (buttons app)) in *.
  assert (Hkn : 0 <= k < n).
  { unfold k, findIndex_active, n in *.
    destruct (findIndex_from_range 0 (buttons app)) as [E|H]; lia. }
  assert (Hne : buttons app <> []).
  { intros E. unfold n in Hkn. rewrite E in Hkn. cbn in Hkn. lia. }
  destruct (swipeTimer_handled d1 t1 perf1 app s _ Hs1 Ht1 Hne Hreg)
    as (b1 & p1 & ps1 & Hrun1 & Hj1 & _).
  fold n k in Hrun1, Hj1.
  set (j1 := next_index Gesture.SwipeRight k n) in *.
  set (app1 := with_system app (toggle_from 0 j1 (buttons app)) t1 ps1) in *.
  assert (Hr1 : state_of (fst r1) = app1) by (unfold r1; rewrite Hrun1; reflexivity).
  unfold r2. rewrite Hr1.
  assert (Hlen1 : Z.of_nat (length (buttons app1)) = n).
  { unfold app1. cbn [buttons with_system]. rewrite toggle_from_length. reflexivity. }
  assert (Hact1 : findIndex_active (buttons app1) = j1).
  { unfold app1. cbn [buttons with_system]. apply findIndex_from_toggle.
    pose proof Hj1 as Hj1'. unfold n in Hj1'. lia. }
  assert (Hne1 : buttons app1 <> []).
  { intros E. rewrite E in Hlen1. cbn in Hlen1. lia. }
  assert (Hreg1 : buttons_registered (buttons app1)).
  { unfold app1. cbn [buttons with_system]. apply toggle_from_registered, Hreg. }
  assert (Ht2' : 500 < t2 - lastSwipeTime app1)
    by (unfold app1; cbn [lastSwipeTime with_system]; lia).
  destruct (swipeTimer_handled d2 t2 perf2 app1 (snd r1) _ Hs2 Ht2' Hne1 Hreg1)
    as (b2 & p2 & ps2 & Hrun2 & Hj2 & Hb2 & Hp2 & Hcur2 & _).
  rewrite Hlen1, Hact1 in Hrun2, Hj2, Hb2.
  assert (Hback : next_index Gesture.SwipeLeft j1 n = k).
  { unfold j1, next_index.
    destruct (Z.eq_dec (k + 1) n) as [E|E].
    - rewrite E, Z.rem_same by lia. replace (0 - 1 + n) with k by lia.
      apply Z.rem_small. lia.
    - rewrite (Z.rem_small (k + 1)) by lia.
      replace (k + 1 - 1 + n) with (k + 1 * n) by lia.
      rewrite Z.rem_mod_nonneg by lia. rewrite Z_mod_plus_full.
      apply Z.mod_small. lia. }
  rewrite Hback in Hrun2, Hb2.
  unfold app1 in Hb2. cbn [buttons with_system] in Hb2.
  rewrite toggle_from_lookup in Hb2.
  destruct (buttons app !! Z.to_nat k) as [b|] eqn:Hb; [|discriminate Hb2].
  cbn in Hb2. injection Hb2 as <-. cbn in Hp2.
  eexists. exists b, p2. split; [exact Hrun2|]. cbn.
  split; [apply findIndex_from_toggle; rewrite toggle_from_length; unfold n in Hkn; lia|].
  split; [reflexivity|]. split; [exact Hp2|exact Hcur2].
Qed.

Lemma swipe_right_then_left_witness :
  let d1 := Gesture.detectSwipe 0.9 Gesture.new_GestureDetector in
  let d2 := Gesture.detectSwipe 0.1 Gesture.new_GestureDetector in
  let app := {| buttons :=
                  [ {| pattern := Some "sphere"%string; active := true |};
                    {| pattern := Some "cube"%string; active := false |};
                    {| pattern := Some "torus"%string; active := false |} ];
                lastSwipeTime := 0;
                particleSystem := fst (createParticles one_particle (fun _ => 0%R)) |} in
  let r1 := swipeTimer d1 1000 1 app (fun _ => 0%R) in
  let r2 := swipeTimer d2 2000 2 (state_of (fst r1)) (snd r1) in
  exists app2, fst r2 = Normal app2 /\ findIndex_active (buttons app2) = 0.
Proof.
  intros d1 d2 app r1 r2.
  assert (Hd1 : Gesture.swipeDirection d1 = Some Gesture.SwipeRight).
  { unfold d1. rewrite GestureFacts.detectSwipe_swipe. cbn.
    destruct (Rlt_dec 0.15 (Rabs (0.9 - 0.5))) as [_|Hn].
    - destruct (Rlt_dec 0 (0.9 - 0.5)) as [_|Hn]; [reflexivity|exfalso; apply Hn; lra].
    - exfalso. apply Hn. rewrite Rabs_right; lra. }
  assert (Hd2 : Gesture.swipeDirection d2 = Some Gesture.SwipeLeft).
  { unfold d2. rewrite GestureFacts.detectSwipe_swipe. cbn.
    destruct (Rlt_dec 0.15 (Rabs (0.1 - 0.5))) as [_|Hn].
    - destruct (Rlt_dec 0 (0.1 - 0.5)) as [Hp|_]; [exfalso; lra|reflexivity].
    - exfalso. apply Hn. rewrite Rabs_left; lra. }
  destruct (swipe_right_then_left d1 d2 1000 2000 1%R 2%R app (fun _ => 0%R) Hd1 Hd2)
    as (app2 & b & p & Hrun & Hidx & _).
  - cbn. lia.
  - lia.
  - exact sample_buttons_registered.
  - cbn. lia.
  - exists app2. split; [exact Hrun|exact Hidx].
Defined.

(** *** The preview *)

Lemma drawConnectors_reads width height (landmarks : Gesture.Hand) connections lines :
  drawConnectors width height landmarks connections = Some lines ->
  length lines = length connections /\
  Forall (fun c : nat * nat =>
            is_Some (landmarks !! c.1) /\ is_Some (landmarks !! c.2)) connections.
Proof.
  revert lines. induction connections as [|[a b] cs IH]; intros lines; cbn.
  - intros [= <-]. split; [reflexivity|constructor].
  - destruct (landmarks !! a) as [pa|] eqn:Ha; [|discriminate].
    destruct (landmarks !! b) as [pb|] eqn:Hb; [|discriminate].
    cbn [mbind option_bind].
    destruct (drawConnectors width height landmarks cs) as [ls|]; [|discriminate].
    cbn. intros [= <-]. destruct (IH ls eq_refl) as [Hl Hf].
    cbn. split; [lia|]. constructor; [|exact Hf]. cbn. eauto.
Qed.

Lemma drawConnectors_total width height (landmarks : Gesture.Hand) connections :
  Forall (fun c : nat * nat =>
            (c.1 < length landmarks)%nat /\ (c.2 < length landmarks)%nat) connections ->
  (0 <= width)%R -> (0 <= height)%R ->
  Forall landmark_in_frame landmarks ->
  exists lines,
    drawConnectors width height landmarks connections = Some lines /\
    Forall (on_canvas width height) lines.
Proof.
  intros Hc Hw Hh Hframe. induction Hc as [|[a b] cs [Ha Hb] _ IH]; cbn [drawConnectors].
  - exists []. split; [reflexivity|constructor].
  - cbn in Ha, Hb.
    destruct (landmarks !! a) as [pa|] eqn:Hpa; [|apply lookup_ge_None in Hpa; lia].
    destruct (landmarks !! b) as [pb|] eqn:Hpb; [|apply lookup_ge_None in Hpb; lia].
    destruct IH as (ls & Hls & Hcanvas).
    rewrite Hls. cbn. eexists. split; [reflexivity|].
    constructor; [|exact Hcanvas].
    destruct (proj1 (Forall_lookup _ _) Hframe a pa Hpa) as [Hax Hay].
    destruct (proj1 (Forall_lookup _ _) Hframe b pb Hpb) as [Hbx Hby].
    unfold on_canvas. cbn. repeat split; nra.
Qed.

(** X30: drawing the hand skeleton with [HAND_CONNECTIONS] completes
    exactly when the hand has at least 21 landmarks (with fewer, a
    missing landmark is read and the call raises an exception); it then
    strokes 23 lines, all of them inside the canvas when the landmarks
    are in the normalised frame. *)
Theorem drawConnectors_needs_21_landmarks width height (landmarks : Gesture.Hand) :
  (is_Some (drawConnectors width height landmarks HAND_CONNECTIONS)
   <-> (21 <= length landmarks)%nat) /\
  (forall lines,
     drawConnectors width height landmarks HAND_CONNECTIONS = Some lines ->
     length lines = 23%nat) /\
  ((0 <= width)%R -> (0 <= height)%R ->
   Forall landmark_in_frame landmarks ->
   forall lines,
     drawConnectors width height landmarks HAND_CONNECTIONS = Some lines ->
     Forall (on_canvas width height) lines).
Proof.
  assert (Hlong : (21 <= length landmarks)%nat ->
            Forall (fun c : nat * nat =>
                      (c.1 < length landmarks)%nat /\ (c.2 < length landmarks)%nat)
                   HAND_CONNECTIONS).
  { intros H. unfold HAND_CONNECTIONS. repeat constructor; cbn; lia. }
  split; [split|split].
  - intros [lines Hl]. destruct (drawConnectors_reads _ _ _ _ _ Hl) as [_ Hf].
    assert (Hin : In (19, 20)%nat HAND_CONNECTIONS) by (cbn; tauto).
    destruct (proj1 (Forall_forall _ _) Hf _ Hin) as [_ H20]. cbn in H20.
    apply lookup_lt_is_Some_1 in H20. lia.
  - intros H.
    assert (Hsome : forall cs,
              Forall (fun c : nat * nat =>
                        (c.1 < length landmarks)%nat /\ (c.2 < length landmarks)%nat) cs ->
              is_Some (drawConnectors width height landmarks cs)).
    { intros cs Hcs.
      induction Hcs as [|[a b] cs' [Ha Hb] _ IH]; cbn [drawConnectors]; [eauto|].
      cbn in Ha, Hb.
      destruct (landmarks !! a) as [pa|] eqn:Hpa; [|apply lookup_ge_None in Hpa; lia].
      destruct (landmarks !! b) as [pb|] eqn:Hpb; [|apply lookup_ge_None in Hpb; lia].
      destruct IH as [ls ->]. cbn. eauto. }
    apply Hsome, Hlong, H.
  - intros lines Hl. destruct (drawConnectors_reads _ _ _ _ _ Hl) as [-> _]. reflexivity.
  - intros Hw Hh Hframe lines Hl.
    assert (H21 : (21 <= length landmarks)%nat).
    { destruct (drawConnectors_reads _ _ _ _ _ Hl) as [_ Hf].
      assert (Hin : In (19, 20)%nat HAND_CONNECTIONS) by (cbn; tauto).
      destruct (proj1 (Forall_forall _ _) Hf _ Hin) as [_ H20]. cbn in H20.
      apply lookup_lt_is_Some_1 in H20. lia. }
    destruct (drawConnectors_total width height landmarks HAND_CONNECTIONS
                (Hlong H21) Hw Hh Hframe) as (ls & Hls & Hc).
    rewrite Hl in Hls. injection Hls as <-. exact Hc.
Qed.

Lemma drawConnectors_needs_21_landmarks_witness :
  is_Some (drawConnectors 320 240 (Gesture.still_hand 0.5) HAND_CONNECTIONS).
Proof.
  apply (proj1 (drawConnectors_needs_21_landmarks 320 240 (Gesture.still_hand 0.5))).
  cbn. lia.
Defined.

End AppFacts.
